(** * VirtualAssistant (V0.01/va.py): command dispatch and persisted state

    A shallow embedding of [va.py] and a verification of its specification.

    Text model.  A Python [str] is a Rocq [string] whose characters are the
    code points U+0000..U+00FF; the [str] methods the program calls
    ([strip], [lower], [isdigit], [splitlines], [ljust]) and [int] are
    written out on that range as CPython defines them.  The program's own
    literals that hold a character beyond U+00FF (the dash of the help
    texts and of the note listing) are written in their UTF-8 bytes, none
    of which is a space or a line boundary.

    Library model.  [json.dumps(obj, indent=2)], [json.loads] and
    [shlex.split] are written out from the standard library ([json.encoder],
    [json.decoder], [json.scanner], [shlex]) for the options the program
    calls them with.  The interpreter is CPython 3.11 with the settings
    the program leaves alone: [int] converts a numeral of at most 4300
    digits, and the calls in progress are at most 1000, which bounds how
    deep the arrays and objects of the state file may nest.

    Effects.  The globals [STATE] and [HISTORY], the state file and the
    standard output are the fields of a [World] that every handler
    transforms; the value [now()] returns during a call is an argument
    of that call.  A handler ends in an [Outcome]: it returns, raises an
    [Exception] with a message, or raises [SystemExit]; [load_state]
    returns a document or raises.  The handlers are written for a
    [STATE] of the documented shape, which is what [load_state] builds
    as a default and what [save_state] writes. *)

From Stdlib Require Import Ascii String NArith ZArith DecimalString DecimalNat.
From stdpp Require Import gmap strings list fin_maps.

Set Warnings "-register-all".

Open Scope string_scope.

(* ===================================================================== *)
(** * Python text primitives                                              *)
(* ===================================================================== *)

Module Text.

Definition code (c : ascii) : N := N_of_ascii c.

Definition between (lo hi n : N) : bool := ((lo <=? n) && (n <=? hi))%N.

(** [str.isspace] of one character: TAB..CR, FS..US, SPACE, NEL, NBSP. *)
Definition isspace (c : ascii) : bool :=
  let n := code c in
  between 9 13 n || between 28 32 n || (n =? 133)%N || (n =? 160)%N.

Fixpoint lstrip (s : string) : string :=
  match s with
  | String c s' => if isspace c then lstrip s' else s
  | EmptyString => EmptyString
  end.

(** [rstrip] walks from the right: a character is dropped when it is a
    space and everything after it has been dropped. *)
Fixpoint rstrip (s : string) : string :=
  match s with
  | String c s' =>
      match rstrip s' with
      | EmptyString => if isspace c then EmptyString else String c EmptyString
      | r => String c r
      end
  | EmptyString => EmptyString
  end.

(** [s.strip()] *)
Definition strip (s : string) : string := rstrip (lstrip s).

(** [str.lower] of one character: A-Z and the capital letters of the
    Latin-1 supplement (U+00C0..U+00DE but the multiplication sign). *)
Definition lower_char (c : ascii) : ascii :=
  let n := code c in
  if between 65 90 n || between 192 214 n || between 216 222 n
  then ascii_of_N (n + 32) else c.

Fixpoint lower (s : string) : string :=
  match s with
  | String c s' => String (lower_char c) (lower s')
  | EmptyString => EmptyString
  end.

Definition is_ascii_digit (c : ascii) : bool := between 48 57 (code c).

(** [str.isdigit] of one character: 0-9 and the superscripts two, three
    and one (U+00B2, U+00B3, U+00B9). *)
Definition isdigit_char (c : ascii) : bool :=
  let n := code c in
  between 48 57 n || (n =? 178)%N || (n =? 179)%N || (n =? 185)%N.

Fixpoint all_chars (p : ascii -> bool) (s : string) : bool :=
  match s with
  | String c s' => p c && all_chars p s'
  | EmptyString => true
  end.

(** [s.isdigit()]: at least one character, all of them digits. *)
Definition isdigit (s : string) : bool :=
  match s with
  | EmptyString => false
  | _ => all_chars isdigit_char s
  end.

Fixpoint digits_value (acc : Z) (s : string) : Z :=
  match s with
  | String c s' => digits_value (10 * acc + Z.of_N (code c - 48)) s'
  | EmptyString => acc
  end.

(** [sep.join(l)] *)
Definition join (sep : string) (l : list string) : string := String.concat sep l.

(** [str(n)] of a natural number. *)
Definition str_nat (n : nat) : string := NilZero.string_of_uint (Nat.to_uint n).

Fixpoint spaces (n : nat) : string :=
  match n with
  | O => EmptyString
  | S n' => String " " (spaces n')
  end.

(** [s.ljust(w)] and the right-aligned [f"{s:>w}"]. *)
Definition ljust (w : nat) (s : string) : string := s ++ spaces (w - String.length s).
Definition rjust (w : nat) (s : string) : string := spaces (w - String.length s) ++ s.

Fixpoint zeros (n : nat) : string :=
  match n with
  | O => EmptyString
  | S n' => String "0" (zeros n')
  end.

(** [f"{n:0wd}"] *)
Definition zfill (w n : nat) : string :=
  let d := str_nat n in zeros (w - String.length d) ++ d.

(** ** [repr] of a string *)

Definition dquote : ascii := "034"%char.

Definition hex_digit (n : N) : ascii :=
  if (n <? 10)%N then ascii_of_N (48 + n) else ascii_of_N (87 + n).

Fixpoint contains (c : ascii) (s : string) : bool :=
  match s with
  | String c' s' => Ascii.eqb c c' || contains c s'
  | EmptyString => false
  end.

(** [str.isprintable] of one character of the range. *)
Definition printable (c : ascii) : bool :=
  let n := code c in
  between 32 126 n || (between 161 255 n && negb (n =? 173)%N).

Definition hex2 (n : N) : string :=
  String (hex_digit (n / 16)) (String (hex_digit (n mod 16)) EmptyString).

Definition repr_char (q c : ascii) : string :=
  let n := code c in
  if Ascii.eqb c q || (n =? 92)%N then String "\" (String c EmptyString)
  else if (n =? 9)%N then "\t"
  else if (n =? 10)%N then "\n"
  else if (n =? 13)%N then "\r"
  else if printable c then String c EmptyString
  else "\x" ++ hex2 n.

Fixpoint repr_chars (q : ascii) (s : string) : string :=
  match s with
  | String c s' => repr_char q c ++ repr_chars q s'
  | EmptyString => EmptyString
  end.

(** [repr(s)]: single quotes, or double quotes when [s] holds a single
    quote and no double quote. *)
Definition repr (s : string) : string :=
  let q := if contains "'" s && negb (contains dquote s) then dquote else "'"%char in
  String q (repr_chars q s ++ String q EmptyString).

(** ** [int] of a string *)

(** [s[:n]] *)
Fixpoint take (n : nat) (s : string) : string :=
  match n, s with
  | S n', String c s' => String c (take n' s')
  | _, _ => EmptyString
  end.

(** The decimal digits 0-9 at the head of [s]. *)
Fixpoint leading_digits (s : string) : string :=
  match s with
  | String c s' => if is_ascii_digit c then String c (leading_digits s') else EmptyString
  | EmptyString => EmptyString
  end.

(** [sys.get_int_max_str_digits()]: the numeral [int] converts has at
    most this many digits (the default of CPython 3.11, which the
    program leaves as it is). *)
Definition int_max_str_digits : nat := 4300.

(** [int(s)] for a string with no white space, sign or underscore, as
    every string that passed [isdigit] is; the message of the ValueError
    is returned on the left.  [PyLong_FromString] reads the digits 0-9 at
    the head of the string (a superscript digit is no decimal digit and
    ends them) and counts them: more than [int_max_str_digits] are
    refused before anything else is looked at.  Then the digits must be
    the whole string and at least one; the message otherwise holds the
    first 200 characters of [repr(s)] (the format [%.200R]). *)
Definition int (s : string) : string + Z :=
  let digits := leading_digits s in
  let n := String.length digits in
  if (int_max_str_digits <? n)%nat then
    inl ("Exceeds the limit (" ++ str_nat int_max_str_digits
         ++ " digits) for integer string conversion: value has " ++ str_nat n
         ++ " digits; use sys.set_int_max_str_digits() to increase the limit")
  else if String.eqb digits s && negb (String.eqb s EmptyString)
  then inr (digits_value 0 s)
  else inl ("invalid literal for int() with base 10: " ++ take 200 (repr s)).

(** A line boundary of [str.splitlines]: LF, VT, FF, CR, FS, GS, RS, NEL. *)
Definition is_linebreak (c : ascii) : bool :=
  let n := code c in between 10 13 n || between 28 30 n || (n =? 133)%N.

(** [s.splitlines()]: [cur] is the line being read, reversed. *)
Fixpoint splitlines_from (cur : string) (s : string) : list string :=
  match s with
  | EmptyString =>
      match cur with EmptyString => [] | _ => [String.rev cur] end
  | String c s' =>
      if is_linebreak c then
        let rest :=
          match s' with
          | String c' s'' =>
              if (code c =? 13)%N && (code c' =? 10)%N then s'' else s'
          | EmptyString => s'
          end in
        String.rev cur :: splitlines_from EmptyString rest
      else splitlines_from (String c cur) s'
  end.

End Text.

(* ===================================================================== *)
(** * The [json] module: documents, [dumps(obj, indent=2)] and [loads]    *)
(* ===================================================================== *)

Module Json.

(** A decoded document.  A Python [dict] keeps its keys in insertion
    order and holds each key once: an object is the list of its items in
    that order.  A number is kept as the literal it was read from: the
    value [int] or [float] gives it is not modelled, only whether the
    conversion raises (the state this program writes holds no number). *)
Inductive json : Type :=
| JNull
| JBool (b : bool)
| JNumber (lit : string)
| JString (s : string)
| JArray (items : list json)
| JObject (members : list (string * json)).

(** ** Encoding *)

Definition dquote : ascii := Text.dquote.
Definition backslash : ascii := "092"%char.

Definition escape (c : ascii) : string := String backslash (String c EmptyString).

(** One character of a string under [ensure_ascii=True]: the short
    escapes of [ESCAPE_DCT], the character itself from SPACE to [~], and
    [\u00xx] for every other one. *)
Definition encode_char (c : ascii) : string :=
  let n := Text.code c in
  if (n =? 34)%N then escape dquote
  else if (n =? 92)%N then escape backslash
  else if (n =? 8)%N then escape "b"
  else if (n =? 12)%N then escape "f"
  else if (n =? 10)%N then escape "n"
  else if (n =? 13)%N then escape "r"
  else if (n =? 9)%N then escape "t"
  else if Text.between 32 126 n then String c EmptyString
  else String backslash (String "u" (String "0" (String "0"
         (String (Text.hex_digit (n / 16)) (String (Text.hex_digit (n mod 16)) EmptyString))))).

Fixpoint encode_chars (s : string) : string :=
  match s with
  | String c s' => encode_char c ++ encode_chars s'
  | EmptyString => EmptyString
  end.

(** [py_encode_basestring_ascii] *)
Definition encode_string (s : string) : string :=
  String dquote (encode_chars s ++ String dquote EmptyString).

(** The line break and indentation written before an item at nesting
    depth [level] ([indent=2]). *)
Definition newline_indent (level : nat) : string :=
  String "010" (Text.spaces (2 * level)).

(** What [_iterencode_list] writes after the first item: each further
    item behind the separator [","] and a new line, then the closing
    bracket on a line of its own.  [enc] encodes an item. *)
Fixpoint encode_items (enc : json -> string) (level : nat) (l : list json) : string :=
  match l with
  | [] => newline_indent level ++ "]"
  | y :: l' => "," ++ newline_indent (S level) ++ enc y ++ encode_items enc level l'
  end.

(** The same for [_iterencode_dict], a key being followed by [": "]. *)
Fixpoint encode_members (enc : json -> string) (level : nat) (l : list (string * json))
    : string :=
  match l with
  | [] => newline_indent level ++ "}"
  | (k, y) :: l' =>
      "," ++ newline_indent (S level) ++ encode_string k ++ ": " ++ enc y
      ++ encode_members enc level l'
  end.

(** [_iterencode] at nesting depth [level], with the separators that
    [indent=2] selects. *)
Fixpoint encode (level : nat) (v : json) : string :=
  match v with
  | JNull => "null"
  | JBool true => "true"
  | JBool false => "false"
  | JNumber lit => lit
  | JString s => encode_string s
  | JArray [] => "[]"
  | JArray (x :: xs) =>
      "[" ++ newline_indent (S level) ++ encode (S level) x
      ++ encode_items (encode (S level)) level xs
  | JObject [] => "{}"
  | JObject ((k, x) :: kxs) =>
      "{" ++ newline_indent (S level) ++ encode_string k ++ ": " ++ encode (S level) x
      ++ encode_members (encode (S level)) level kxs
  end.

(** [json.dumps(obj, indent=2)] *)
Definition dumps (v : json) : string := encode 0 v.

(** ** Decoding *)

(** The result of a scanner: a value and the text that follows it; [Err]
    when the scanner raises (a JSONDecodeError, the ValueError of [int],
    a RecursionError: all of them an [Exception]).  [Beyond] marks a text
    the model does not cover: it holds an escape for a character above
    U+00FF. *)
Inductive scan (A : Type) : Type :=
| Ok (a : A) (rest : string)
| Err
| Beyond.
Arguments Ok {A} a rest.
Arguments Err {A}.
Arguments Beyond {A}.

Definition scan_bind {A B} (r : scan A) (k : A -> string -> scan B) : scan B :=
  match r with
  | Ok a rest => k a rest
  | Err => Err
  | Beyond => Beyond
  end.

(** The pattern [WHITESPACE]: space, TAB, LF and CR. *)
Definition is_ws (c : ascii) : bool :=
  let n := Text.code c in (n =? 32)%N || (n =? 9)%N || (n =? 10)%N || (n =? 13)%N.

Fixpoint skip_ws (s : string) : string :=
  match s with
  | String c s' => if is_ws c then skip_ws s' else s
  | EmptyString => EmptyString
  end.

Definition hex_value (c : ascii) : option N :=
  let n := Text.code c in
  if Text.between 48 57 n then Some (n - 48)%N
  else if Text.between 97 102 n then Some (n - 87)%N
  else if Text.between 65 70 n then Some (n - 55)%N
  else None.

(** The character a one-letter escape stands for ([BACKSLASH]). *)
Definition unescape (c : ascii) : option ascii :=
  let n := Text.code c in
  if (n =? 34)%N then Some dquote
  else if (n =? 92)%N then Some backslash
  else if (n =? 47)%N then Some "/"%char
  else if (n =? 98)%N then Some "008"%char
  else if (n =? 102)%N then Some "012"%char
  else if (n =? 110)%N then Some "010"%char
  else if (n =? 114)%N then Some "013"%char
  else if (n =? 116)%N then Some "009"%char
  else None.

(** [scanstring(s, end, strict=True)], entered after the opening quote. *)
Fixpoint scanstring (s : string) : scan string :=
  match s with
  | EmptyString => Err
  | String c s' =>
      let n := Text.code c in
      if (n =? 34)%N then Ok EmptyString s'
      else if (n =? 92)%N then
        match s' with
        | EmptyString => Err
        | String e s'' =>
            if (Text.code e =? 117)%N then
              match s'' with
              | String h1 (String h2 (String h3 (String h4 s4))) =>
                  match hex_value h1, hex_value h2, hex_value h3, hex_value h4 with
                  | Some a, Some b, Some c', Some d =>
                      let u := (((a * 16 + b) * 16 + c') * 16 + d)%N in
                      if (u <? 256)%N then
                        scan_bind (scanstring s4) (fun r rest => Ok (String (ascii_of_N u) r) rest)
                      else Beyond
                  | _, _, _, _ => Err
                  end
              | _ => Err
              end
            else
              match unescape e with
              | Some ch => scan_bind (scanstring s'') (fun r rest => Ok (String ch r) rest)
              | None => Err
              end
        end
      else if (n <? 32)%N then Err
      else scan_bind (scanstring s') (fun r rest => Ok (String c r) rest)
  end.

Fixpoint take_digits (s : string) : string * string :=
  match s with
  | String c s' =>
      if Text.is_ascii_digit c
      then let '(d, rest) := take_digits s' in (String c d, rest)
      else (EmptyString, s)
  | EmptyString => (EmptyString, EmptyString)
  end.

(** [NUMBER_RE] matched at the head of [s]: an optional minus sign, then
    0 or a numeral that starts with 1-9; then, when present in full, a
    point with its digits; then, when present in full, e or E with an
    optional sign and its digits.  The result is the literal matched and
    what follows it. *)
Definition match_number (s : string) : option (string * string) :=
  let '(sign, s1) :=
    match s with
    | String "-" s' => ("-", s')
    | _ => (EmptyString, s)
    end in
  let int_part :=
    match s1 with
    | String "0" s' => Some ("0", s')
    | String c _ =>
        if Text.is_ascii_digit c then Some (take_digits s1) else None
    | EmptyString => None
    end in
  match int_part with
  | None => None
  | Some (i, s2) =>
      let '(frac, s3) :=
        match s2 with
        | String "." s' =>
            match take_digits s' with
            | (EmptyString, _) => (EmptyString, s2)
            | (d, r) => (String "." d, r)
            end
        | _ => (EmptyString, s2)
        end in
      let '(exp, s4) :=
        match s3 with
        | String e s' =>
            if (Text.code e =? 101)%N || (Text.code e =? 69)%N then
              let '(sg, s'') :=
                match s' with
                | String "+" t => ("+", t)
                | String "-" t => ("-", t)
                | _ => (EmptyString, s')
                end in
              match take_digits s'' with
              | (EmptyString, _) => (EmptyString, s3)
              | (d, r) => (String e (sg ++ d), r)
              end
            else (EmptyString, s3)
        | EmptyString => (EmptyString, s3)
        end in
      Some (sign ++ i ++ frac ++ exp, s4)
  end.

(** [s.startswith(p)], returning what follows the prefix. *)
Fixpoint strip_prefix (p s : string) : option string :=
  match p, s with
  | EmptyString, _ => Some s
  | String a p', String b s' => if Ascii.eqb a b then strip_prefix p' s' else None
  | String _ _, EmptyString => None
  end.

(** [dict(pairs)]: a repeated key keeps its first position and takes the
    last value. *)
Fixpoint dict_set (k : string) (v : json) (d : list (string * json)) : list (string * json) :=
  match d with
  | [] => [(k, v)]
  | (k', v') :: d' => if String.eqb k k' then (k, v) :: d' else (k', v') :: dict_set k v d'
  end.

Definition dict_of_pairs (pairs : list (string * json)) : list (string * json) :=
  foldl (fun d kv => dict_set kv.1 kv.2 d) [] pairs.

(** A literal that [NUMBER_RE] matched is converted by [int] when it has
    neither fraction nor exponent, which is when all that follows its
    sign is digits, and by [float] otherwise.  [float] takes every
    literal; [int] raises ValueError on more than
    [Text.int_max_str_digits] digits. *)
Definition int_refuses (lit : string) : bool :=
  let digits := match lit with String "-" d => d | _ => lit end in
  Text.all_chars Text.is_ascii_digit digits
  && (Text.int_max_str_digits <? String.length digits)%nat.

(** The words and the number that [_scan_once] tries after the string,
    the object and the array. *)
Definition scan_atom (s : string) : scan json :=
  match strip_prefix "null" s with
  | Some r => Ok JNull r
  | None =>
  match strip_prefix "true" s with
  | Some r => Ok (JBool true) r
  | None =>
  match strip_prefix "false" s with
  | Some r => Ok (JBool false) r
  | None =>
  match match_number s with
  | Some (lit, r) => if int_refuses lit then Err else Ok (JNumber lit) r
  | None =>
  match strip_prefix "NaN" s with
  | Some r => Ok (JNumber "NaN") r
  | None =>
  match strip_prefix "Infinity" s with
  | Some r => Ok (JNumber "Infinity") r
  | None =>
  match strip_prefix "-Infinity" s with
  | Some r => Ok (JNumber "-Infinity") r
  | None => Err
  end end end end end end end.

(** What follows [s] when [s] starts with the character [c]. *)
Definition after (c : ascii) (s : string) : option string :=
  match s with
  | String c' s' => if Ascii.eqb c c' then Some s' else None
  | EmptyString => None
  end.

(** [_scan_once], [JSONArray] and [JSONObject].  The three call one
    another.  [depth] is the number of arrays and objects that may still
    be opened inside one another: the scanner enters a recursive call
    ([Py_EnterRecursiveCall]) at every opening bracket, before it looks
    at what follows, and raises RecursionError when the interpreter's
    limit on the calls in progress is reached.  [fuel] bounds the calls
    of the model; [loads] gives the length of the text, which never
    makes it reject a text ([loads_fuel_enough]). *)
Fixpoint scan_once (depth fuel : nat) (s : string) : scan json :=
  match fuel with
  | O => Err
  | S fuel' =>
      match after dquote s, after "{" s, after "[" s with
      | Some s', _, _ => scan_bind (scanstring s') (fun str rest => Ok (JString str) rest)
      | None, Some s', _ =>
          match depth with
          | O => Err
          | S depth' =>
              let s'' := skip_ws s' in
              match after "}" s'', after dquote s'' with
              | Some rest, _ => Ok (JObject []) rest
              | None, Some s3 =>
                  scan_bind (scan_members depth' fuel' s3)
                    (fun pairs rest => Ok (JObject (dict_of_pairs pairs)) rest)
              | None, None => Err
              end
          end
      | None, None, Some s' =>
          match depth with
          | O => Err
          | S depth' =>
              let s'' := skip_ws s' in
              match after "]" s'' with
              | Some rest => Ok (JArray []) rest
              | None =>
                  scan_bind (scan_items depth' fuel' s'')
                    (fun items rest => Ok (JArray items) rest)
              end
          end
      | None, None, None => scan_atom s
      end
  end

(** The loop of [JSONArray], entered at the first character of a value. *)
with scan_items (depth fuel : nat) (s : string) : scan (list json) :=
  match fuel with
  | O => Err
  | S fuel' =>
      scan_bind (scan_once depth fuel' s) (fun v rest =>
      let rest := skip_ws rest in
      match after "]" rest, after "," rest with
      | Some rest', _ => Ok [v] rest'
      | None, Some rest' =>
          scan_bind (scan_items depth fuel' (skip_ws rest'))
            (fun vs rest'' => Ok (v :: vs) rest'')
      | None, None => Err
      end)
  end

(** The loop of [JSONObject], entered after the opening quote of a key. *)
with scan_members (depth fuel : nat) (s : string) : scan (list (string * json)) :=
  match fuel with
  | O => Err
  | S fuel' =>
      scan_bind (scanstring s) (fun key rest =>
      match after ":" (skip_ws rest) with
      | None => Err
      | Some rest1 =>
          scan_bind (scan_once depth fuel' (skip_ws rest1)) (fun v rest2 =>
          let rest2 := skip_ws rest2 in
          match after "}" rest2, after "," rest2 with
          | Some rest3, _ => Ok [(key, v)] rest3
          | None, Some rest3 =>
              match after dquote (skip_ws rest3) with
              | Some rest4 =>
                  scan_bind (scan_members depth fuel' rest4)
                    (fun kvs rest5 => Ok ((key, v) :: kvs) rest5)
              | None => Err
              end
          | None, None => Err
          end)
      end)
  end.

(** [json.loads(s)], called where the interpreter still allows [depth]
    nested calls of the scanner: one value between optional whitespace,
    and nothing after it. *)
Definition loads (depth : nat) (s : string) : scan json :=
  scan_bind (scan_once depth (S (String.length s)) (skip_ws s)) (fun v rest =>
  match skip_ws rest with
  | EmptyString => Ok v EmptyString
  | _ => Err
  end).

End Json.

(* ===================================================================== *)
(** * [shlex.split]                                                       *)
(* ===================================================================== *)

Module Shlex.

(** The state of the lexer ([shlex.state]) while it reads a token: between
    tokens, inside a word, inside a quotation opened by [q], or after the
    escape character, [back] being the state to return to
    ([escapedstate]: the word, or the quotation the escape occurred in). *)
Inductive state : Type :=
| InSpace
| InWord
| InQuote (q : ascii)
| InEscape (back : option ascii).

(** [shlex.whitespace]: space, TAB, CR and LF. *)
Definition is_whitespace (c : ascii) : bool :=
  let n := Text.code c in (n =? 32)%N || (n =? 9)%N || (n =? 13)%N || (n =? 10)%N.

(** [shlex.quotes]: the single and the double quote. *)
Definition is_quote (c : ascii) : bool :=
  let n := Text.code c in (n =? 39)%N || (n =? 34)%N.

(** [shlex.escape]: the backslash. *)
Definition is_escape (c : ascii) : bool := (Text.code c =? 92)%N.

(** [shlex.escapedquotes]: the double quote. *)
Definition is_escapedquote (c : ascii) : bool := (Text.code c =? 34)%N.

Definition push (tok : string) (c : ascii) : string := tok ++ String c EmptyString.

(** The tokens that follow, [tok] being given first. *)
Definition emit (tok : string) (r : string + list string) : string + list string :=
  match r with
  | inl e => inl e
  | inr toks => inr (tok :: toks)
  end.

(** [read_token] in POSIX mode with [whitespace_split] and no comment
    character, iterated to the end of the input as [split] does.  [tok]
    is the token read so far and [quoted] tells whether a quotation took
    part in it.  The left result is the message of the ValueError. *)
Fixpoint lex (st : state) (tok : string) (quoted : bool) (s : string) : string + list string :=
  match s with
  | EmptyString =>
      match st with
      | InSpace => inr []
      | InWord =>
          if quoted || negb (String.eqb tok EmptyString) then inr [tok] else inr []
      | InQuote _ => inl "No closing quotation"
      | InEscape _ => inl "No escaped character"
      end
  | String c s' =>
      match st with
      | InSpace =>
          if is_whitespace c then lex InSpace tok quoted s'
          else if is_escape c then lex (InEscape None) tok quoted s'
          else if is_quote c then lex (InQuote c) tok true s'
          else lex InWord (String c EmptyString) quoted s'
      | InWord =>
          if is_whitespace c then
            if quoted || negb (String.eqb tok EmptyString)
            then emit tok (lex InSpace EmptyString false s')
            else lex InSpace tok quoted s'
          else if is_quote c then lex (InQuote c) tok true s'
          else if is_escape c then lex (InEscape None) tok quoted s'
          else lex InWord (push tok c) quoted s'
      | InQuote q =>
          if Ascii.eqb c q then lex InWord tok quoted s'
          else if is_escape c && is_escapedquote q then lex (InEscape (Some q)) tok quoted s'
          else lex (InQuote q) (push tok c) quoted s'
      | InEscape back =>
          match back with
          | Some q =>
              if negb (is_escape c) && negb (Ascii.eqb c q)
              then lex (InQuote q) (push (push tok "\") c) quoted s'
              else lex (InQuote q) (push tok c) quoted s'
          | None => lex InWord (push tok c) quoted s'
          end
      end
  end.

(** [shlex.split(s)] *)
Definition split (s : string) : string + list string := lex InSpace EmptyString false s.

End Shlex.

(* ===================================================================== *)
(** * Dates                                                               *)
(* ===================================================================== *)

(** A [datetime.datetime] as [now()] returns it. *)
Record datetime : Type := {
  year : nat; month : nat; day : nat;
  hour : nat; minute : nat; second : nat; microsecond : nat
}.

(** [t.isoformat(timespec="seconds")] *)
Definition isoformat_seconds (t : datetime) : string :=
  Text.zfill 4 (year t) ++ "-" ++ Text.zfill 2 (month t) ++ "-" ++ Text.zfill 2 (day t)
  ++ "T" ++ Text.zfill 2 (hour t) ++ ":" ++ Text.zfill 2 (minute t)
  ++ ":" ++ Text.zfill 2 (second t).

(** [t.isoformat()]: the microseconds are written when they are not zero. *)
Definition isoformat (t : datetime) : string :=
  match microsecond t with
  | O => isoformat_seconds t
  | us => isoformat_seconds t ++ "." ++ Text.zfill 6 us
  end.

(** [t.strftime("%Y-%m-%d %H:%M:%S")] *)
Definition strftime (t : datetime) : string :=
  Text.zfill 4 (year t) ++ "-" ++ Text.zfill 2 (month t) ++ "-" ++ Text.zfill 2 (day t)
  ++ " " ++ Text.zfill 2 (hour t) ++ ":" ++ Text.zfill 2 (minute t)
  ++ ":" ++ Text.zfill 2 (second t).


(* ===================================================================== *)
(** * Persistence                                                         *)
(* ===================================================================== *)

Module Note.
Record t : Type := { when : string; text : string }.
End Note.

Module Todo.
Record t : Type := { text : string; done : bool; created : string }.
End Todo.

(** The persisted state: the document that [STATE] holds. *)
Record State : Type := {
  notes : list Note.t;
  todos : list Todo.t;
  created : string
}.

Import Json.

(** The Python objects that make up the state, with their keys in the
    order the program inserts them. *)
Definition note_json (n : Note.t) : json :=
  JObject [("when", JString (Note.when n)); ("text", JString (Note.text n))].

Definition todo_json (t : Todo.t) : json :=
  JObject [("text", JString (Todo.text t)); ("done", JBool (Todo.done t));
           ("created", JString (Todo.created t))].

Definition state_json (st : State) : json :=
  JObject [("notes", JArray (map note_json (notes st)));
           ("todos", JArray (map todo_json (todos st)));
           ("created", JString (created st))].

(** What is at [STATE_PATH].  [Missing]: nothing, [exists()] is false.
    [Denied msg]: the path cannot be examined; [stat] fails with an
    OSError that [Path.exists] does not take for an absent file (any but
    ENOENT, ENOTDIR, EBADF and ELOOP; EACCES when a directory on the way
    may not be searched) and raises again, [msg] being its message.
    [Unreadable]: something that [read_text] cannot read (the opening,
    the read or the decoding of the bytes raises an OSError or a
    UnicodeDecodeError).  [Content text]: a file and its text. *)
Inductive File : Type :=
| Missing
| Denied (msg : string)
| Unreadable
| Content (text : string).

(** The file, and whether writing it is refused: [write_error] is then the
    message of the OSError that [write_text] raises.  [writes] counts the
    calls of [write_text] made so far; the program never reads it. *)
Record Disk : Type := {
  file : File;
  write_error : option string;
  writes : nat
}.

(** The newline translation of a file read in text mode: CR LF and a
    lone CR are read as LF. *)
Fixpoint universal_newlines (s : string) : string :=
  match s with
  | String c s' =>
      if (Text.code c =? 13)%N then
        match s' with
        | String c' s'' =>
            if (Text.code c' =? 10)%N then String "010" (universal_newlines s'')
            else String "010" (universal_newlines s')
        | EmptyString => String "010" EmptyString
        end
      else String c (universal_newlines s')
  | EmptyString => EmptyString
  end.

(** The document of a fresh state. *)
Definition default_state (now : datetime) : State :=
  {| notes := []; todos := []; created := isoformat now |}.

(** [sys.getrecursionlimit()], which the program leaves at its default. *)
Definition recursion_limit : nat := 1000.

(** The calls in progress when the scanner starts on the text that
    [load_state] hands to [json.loads], the program being run as a
    script by CPython 3.11: the module, [load_state], [loads], [decode],
    [raw_decode] and the scanner. *)
Definition calls_in_progress : nat := 6.

(** The arrays and objects that may be open inside one another in the
    state file. *)
Definition nesting_limit : nat := recursion_limit - calls_in_progress.

(** How [load_state()] ends: it returns a document, or raises an
    exception whose [str] is [msg]; [LoadBeyond] on a file whose text the
    model does not cover. *)
Inductive Load : Type :=
| Loaded (doc : json)
| LoadRaised (msg : string)
| LoadBeyond.

(** [load_state()], [now] being the time of the call.  The call of
    [exists()] stands before the [try]: what it raises reaches the
    caller.  What [read_text] or [json.loads] raise is an [Exception]
    and is dropped. *)
Definition load_state (d : Disk) (now : datetime) : Load :=
  match file d with
  | Denied msg => LoadRaised msg
  | Missing => Loaded (state_json (default_state now))
  | Unreadable => Loaded (state_json (default_state now))
  | Content text =>
      match loads nesting_limit (universal_newlines text) with
      | Ok v _ => Loaded v
      | Err => Loaded (state_json (default_state now))
      | Beyond => LoadBeyond
      end
  end.

(** [save_state(state)]: the disk afterwards, and the message of the
    error raised when the write is refused (the file is then left as it
    was). *)
Definition save_state (state : State) (d : Disk) : Disk * option string :=
  match write_error d with
  | Some msg =>
      ({| file := file d; write_error := write_error d; writes := S (writes d) |}, Some msg)
  | None =>
      ({| file := Content (dumps (state_json state)); write_error := None;
          writes := S (writes d) |}, None)
  end.

(* ===================================================================== *)
(** * Command registry                                                    *)
(* ===================================================================== *)

(** The handlers, by the name of their Python function. *)
Inductive Handler : Type :=
| fn_help | fn_time | fn_say | fn_note | fn_todo | fn_history | fn_clear | fn_exit.

Record CommandEntry : Type := { fn : Handler; help : string }.

(** The two dictionaries [COMMANDS] and [ALIASES]. *)
Record Registry : Type := {
  COMMANDS : gmap string CommandEntry;
  ALIASES : gmap string string
}.

Definition empty_registry : Registry := {| COMMANDS := ∅; ALIASES := ∅ |}.

(** The effect of decorating [func] with
    [@command(name, aliases=aliases, help=help)]. *)
Definition command (name : string) (aliases : list string) (help : string)
    (func : Handler) (reg : Registry) : Registry :=
  {| COMMANDS := <[name := {| fn := func; help := Text.strip help |}]> (COMMANDS reg);
     ALIASES := foldl (fun al a => <[a := name]> al) (ALIASES reg) aliases |}.

(** [resolve(cmd)] *)
Definition resolve (reg : Registry) (cmd : string) : option string :=
  match COMMANDS reg !! cmd with
  | Some _ => Some cmd
  | None =>
      match ALIASES reg !! cmd with
      | Some name => Some name
      | None => None
      end
  end.

(** One decorated function: its name, aliases, help text and handler. *)
Definition Registration : Type := string * list string * string * Handler.

Definition register (reg : Registry) (r : Registration) : Registry :=
  let '(name, aliases, help, func) := r in command name aliases help func reg.

Definition nl : string := String "010" EmptyString.

(** The decorators of the module, in the order they run at import. *)
Definition registrations : list Registration :=
  [ ("help", ["?"],
     nl ++ "help [command] — show help (for all commands or a specific one)" ++ nl,
     fn_help);
    ("time", ["date"], "time — show current date/time", fn_time);
    ("say", [], "say <text> — repeat back your text", fn_say);
    ("note", ["addnote"; "n"],
     nl ++ "note <text> — save a quick note" ++ nl
        ++ "note list     — list notes" ++ nl,
     fn_note);
    ("todo", ["t"; "task"],
     nl ++ "todo add <text>     — add a todo" ++ nl
        ++ "todo list           — list todos" ++ nl
        ++ "todo done <number>  — mark done (by number)" ++ nl,
     fn_todo);
    ("history", [], "history — show recent commands", fn_history);
    ("clear", [], "clear — clear the screen", fn_clear);
    ("exit", ["quit"; "q"], "exit — leave the assistant", fn_exit) ].

(** The registry once the module is imported. *)
Definition registry : Registry := foldl register empty_registry registrations.

(* ===================================================================== *)
(** * The world the handlers act on                                       *)
(* ===================================================================== *)

(** What the program sends out: a [print(s)], the prompt of an
    [input(s)], a call [echo_box(s)] (a presentation helper: the call is
    recorded, the drawing of the box is not modelled), and the clearing
    of the screen. *)
Inductive Output : Type :=
| Print (s : string)
| Prompt (s : string)
| Box (s : string)
| Clear.

Record World : Type := {
  STATE : State;
  HISTORY : list string;
  disk : Disk;
  stdout : list Output
}.

(** How a call ends: it returns, raises an [Exception] whose [str] is
    [msg], or raises [SystemExit]. *)
Inductive Outcome : Type :=
| Returned
| Raised (msg : string)
| SystemExit (status : Z).

Definition out (o : Output) (w : World) : World :=
  {| STATE := STATE w; HISTORY := HISTORY w; disk := disk w; stdout := stdout w ++ [o] |}.

Definition print (s : string) (w : World) : World := out (Print s) w.

Definition echo_box (s : string) (w : World) : World := out (Box s) w.

Definition print_all (lines : list string) (w : World) : World :=
  foldl (fun w' s => print s w') w lines.

Definition set_STATE (st : State) (w : World) : World :=
  {| STATE := st; HISTORY := HISTORY w; disk := disk w; stdout := stdout w |}.

Definition set_disk (d : Disk) (w : World) : World :=
  {| STATE := STATE w; HISTORY := HISTORY w; disk := d; stdout := stdout w |}.

(** [save_state(STATE)] inside a handler. *)
Definition save (w : World) : World * option string :=
  let '(d, e) := save_state (STATE w) (disk w) in (set_disk d w, e).

(* ===================================================================== *)
(** * Built-in commands                                                   *)
(* ===================================================================== *)

Fixpoint insert_sorted (s : string) (l : list string) : list string :=
  match l with
  | [] => [s]
  | x :: l' => if String.leb s x then s :: l else x :: insert_sorted s l'
  end.

(** [sorted(COMMANDS)] *)
Definition sorted_names (reg : Registry) : list string :=
  foldr insert_sorted [] (map fst (map_to_list (COMMANDS reg))).

(** The help text of a registered command, as the subscription
    [COMMANDS[cmd]["help"]] reads it; the message of the KeyError
    otherwise. *)
Definition help_of (reg : Registry) (cmd : string) : string + string :=
  match COMMANDS reg !! cmd with
  | Some e => inr (help e)
  | None => inl (Text.repr cmd)
  end.

Definition overview_line (reg : Registry) (width : nat) (n : string) : string :=
  let h :=
    match COMMANDS reg !! n with
    | Some e =>
        match Text.splitlines_from EmptyString (help e) with
        | first :: _ => first
        | [] => EmptyString
        end
    | None => EmptyString
    end in
  "  " ++ Text.ljust width n ++ "  " ++ h.

Definition _help (reg : Registry) (args : list string) (w : World) : World * Outcome :=
  match args with
  | a :: _ =>
      match resolve reg a with
      | None => (print ("No such command: " ++ a) w, Returned)
      | Some EmptyString => (print ("No such command: " ++ a) w, Returned)
      | Some cmd =>
          match help_of reg cmd with
          | inl e => (w, Raised e)
          | inr h =>
              let h := match h with EmptyString => "(no help text)" | _ => h end in
              (echo_box (cmd ++ nl ++ nl ++ h) w, Returned)
          end
      end
  | [] =>
      let w := echo_box "Commands:" w in
      match sorted_names reg with
      | [] => (w, Raised "max() arg is an empty sequence")
      | names =>
          let width := foldr Nat.max 0 (map String.length names) in
          (print_all (map (overview_line reg width) names) w, Returned)
      end
  end.

Definition _time (args : list string) (now : datetime) (w : World) : World * Outcome :=
  (print (strftime now) w, Returned).

Definition _say (args : list string) (w : World) : World * Outcome :=
  match args with
  | [] => (print "Usage: say <text>" w, Returned)
  | _ => (print (Text.join " " args) w, Returned)
  end.

(** A line of [note list]; [i] counts from 0. *)
Definition note_line (i : nat) (n : Note.t) : string :=
  Text.str_nat (S i) ++ ". " ++ Note.when n ++ " — " ++ Note.text n.

Definition _note (args : list string) (now : datetime) (w : World) : World * Outcome :=
  match args with
  | [] => (print "Usage: note <text> | note list" w, Returned)
  | a :: _ =>
      if String.eqb a "list" then
        match notes (STATE w) with
        | [] => (print "(no notes)" w, Returned)
        | ns => (print_all (imap note_line ns) w, Returned)
        end
      else
        let text := Text.join " " args in
        let st := STATE w in
        let n := {| Note.when := isoformat_seconds now; Note.text := text |} in
        let w := set_STATE {| notes := notes st ++ [n]; todos := todos st;
                              created := created st |} w in
        match save w with
        | (w, Some e) => (w, Raised e)
        | (w, None) => (print "Saved note." w, Returned)
        end
  end.

Definition todo_usage : string :=
  "Usage:" ++ nl ++ "  todo add <text>" ++ nl ++ "  todo list" ++ nl ++ "  todo done <number>".

(** A line of [todo list]; [i] counts from 0. *)
Definition todo_line (i : nat) (t : Todo.t) : string :=
  let box := if Todo.done t then "[x]" else "[ ]" in
  Text.rjust 2 (Text.str_nat (S i)) ++ ". " ++ box ++ " " ++ Todo.text t.

Definition mark_done (t : Todo.t) : Todo.t :=
  {| Todo.text := Todo.text t; Todo.done := true; Todo.created := Todo.created t |}.

Definition _todo (args : list string) (now : datetime) (w : World) : World * Outcome :=
  match args with
  | [] => (print todo_usage w, Returned)
  | sub :: rest =>
      if String.eqb sub "add" then
        let text := Text.strip (Text.join " " rest) in
        match text with
        | EmptyString => (print "Provide a task description." w, Returned)
        | _ =>
            let st := STATE w in
            let t := {| Todo.text := text; Todo.done := false;
                        Todo.created := isoformat_seconds now |} in
            let w := set_STATE {| notes := notes st; todos := todos st ++ [t];
                                  created := created st |} w in
            match save w with
            | (w, Some e) => (w, Raised e)
            | (w, None) => (print "Added." w, Returned)
            end
        end
      else if String.eqb sub "list" then
        match todos (STATE w) with
        | [] => (print "(no todos)" w, Returned)
        | ts => (print_all (imap todo_line ts) w, Returned)
        end
      else if String.eqb sub "done" then
        match rest with
        | [] => (print "Provide the todo number to mark done." w, Returned)
        | number :: _ =>
            if negb (Text.isdigit number)
            then (print "Provide the todo number to mark done." w, Returned)
            else
              match Text.int number with
              | inl e => (w, Raised e)
              | inr k =>
                  let idx := (k - 1)%Z in
                  let st := STATE w in
                  if (idx <? 0)%Z || (Z.of_nat (length (todos st)) <=? idx)%Z
                  then (print "Invalid number." w, Returned)
                  else
                    let w := set_STATE {| notes := notes st;
                                          todos := alter mark_done (Z.to_nat idx) (todos st);
                                          created := created st |} w in
                    match save w with
                    | (w, Some e) => (w, Raised e)
                    | (w, None) => (print "Marked done." w, Returned)
                    end
              end
        end
      else (print todo_usage w, Returned)
  end.

(** A line of [history]; [i] counts from 0. *)
Definition history_line (i : nat) (line : string) : string :=
  Text.rjust 2 (Text.str_nat (S i)) ++ ": " ++ line.

Definition _history (args : list string) (w : World) : World * Outcome :=
  let recent := drop (length (HISTORY w) - 50) (HISTORY w) in
  (print_all (imap history_line recent) w, Returned).

Definition _clear (args : list string) (w : World) : World * Outcome :=
  (out Clear w, Returned).

Definition _exit (args : list string) (w : World) : World * Outcome :=
  (print "Bye!" w, SystemExit 0).

(** The call [func(args)] of a registered handler. *)
Definition call (reg : Registry) (func : Handler) (args : list string) (now : datetime)
    (w : World) : World * Outcome :=
  match func with
  | fn_help => _help reg args w
  | fn_time => _time args now w
  | fn_say => _say args w
  | fn_note => _note args now w
  | fn_todo => _todo args now w
  | fn_history => _history args w
  | fn_clear => _clear args w
  | fn_exit => _exit args w
  end.

(* ===================================================================== *)
(** * Intent fallback                                                     *)
(* ===================================================================== *)

Definition INTENT_MAP : list (gset string * string) :=
  [ ({["note"; "remember"; "jot"]}, "note");
    ({["task"; "todo"; "remind"]}, "todo");
    ({["time"; "date"; "clock"]}, "time");
    ({["repeat"; "say"; "echo"]}, "say");
    ({["help"]}, "help") ].

(** The [for] loop of [guess_intent] over the rules still to try; [best]
    is only ever assigned on the way out. *)
Fixpoint first_match (rules : list (gset string * string)) (words : gset string)
    : option string :=
  match rules with
  | [] => None
  | (keys, cmd) :: rules' =>
      if bool_decide (keys ∩ words ≠ ∅) then Some cmd else first_match rules' words
  end.

Definition guess_intent (tokens : list string) : option string :=
  let words : gset string := list_to_set (map Text.lower tokens) in
  first_match INTENT_MAP words.

(* ===================================================================== *)
(** * Main loop                                                           *)
(* ===================================================================== *)

(** What [input("va> ")] does: it returns a line, or raises EOFError or
    KeyboardInterrupt. *)
Inductive Input : Type :=
| Line (s : string)
| EndOfInput
| Interrupt.

(** The process after one turn of the loop: still in the loop, ended by
    [sys.exit], or ended by an exception nothing catches. *)
Inductive Status : Type :=
| Running
| Exited (status : Z)
| Crashed (msg : string).

Definition stop_words : list string := ["please"; "me"; "a"; "the"].

Definition is_stop_word (a : string) : bool :=
  bool_decide (Text.lower a ∈ stop_words).

(** The [try] statement around the call of the handler (lines 211-216). *)
Definition dispatch (reg : Registry) (cmd : string) (args : list string) (now : datetime)
    (w : World) : World * Status :=
  let '(w, r) :=
    match COMMANDS reg !! cmd with
    | Some e => call reg (fn e) args now w
    | None => (w, Raised (Text.repr cmd))
    end in
  match r with
  | Returned => (w, Running)
  | SystemExit status => (w, Exited status)
  | Raised e => (print ("Error running '" ++ cmd ++ "': " ++ e) w, Running)
  end.

Definition record_line (line : string) (w : World) : World :=
  {| STATE := STATE w; HISTORY := HISTORY w ++ [line]; disk := disk w; stdout := stdout w |}.

(** A string that a Python condition takes as true. *)
Definition truthy (o : option string) : option string :=
  match o with
  | Some EmptyString => None
  | _ => o
  end.

(** The turn once the line is split into [parts] (lines 196-216). *)
Definition interpret (reg : Registry) (parts : list string) (now : datetime) (w : World)
    : World * Status :=
  match parts with
  | [] => (w, Crashed "not enough values to unpack (expected at least 1, got 0)")
  | cmd_token :: args =>
      match truthy (resolve reg cmd_token) with
      | Some cmd => dispatch reg cmd args now w
      | None =>
          match truthy (guess_intent parts) with
          | Some guess =>
              let args := filter (fun a => negb (is_stop_word a)) args in
              let args :=
                match args with
                | [] => if String.eqb guess "note" then [Text.join " " parts] else args
                | _ => args
                end in
              dispatch reg guess args now w
          | None =>
              (print ("Unknown command: " ++ cmd_token ++ ". Try 'help'.") w, Running)
          end
      end
  end.

(** One turn of the [while True] loop of [main]. *)
Definition main_step (reg : Registry) (inp : Input) (now : datetime) (w : World)
    : World * Status :=
  let w := out (Prompt "va> ") w in
  match inp with
  | EndOfInput | Interrupt =>
      let '(w, _) := _exit [] (print EmptyString w) in (w, Exited 0)
  | Line raw =>
      let line := Text.strip raw in
      match line with
      | EmptyString => (w, Running)
      | _ =>
          let w := record_line line w in
          match Shlex.split line with
          | inl e => (print ("Parse error: " ++ e) w, Running)
          | inr parts => interpret reg parts now w
          end
      end
  end.

Definition BANNER : string :=
  "Command-line Virtual Assistant" ++ nl
  ++ "Type 'help' to see commands. Ctrl+C or 'exit' to quit." ++ nl.

(** The loop of [main] over the inputs it is given, each with the time
    of its turn; the loop stops with the process. *)
Fixpoint main_loop (reg : Registry) (inputs : list (Input * datetime)) (w : World)
    : World * Status :=
  match inputs with
  | [] => (w, Running)
  | (inp, now) :: inputs' =>
      match main_step reg inp now w with
      | (w', Running) => main_loop reg inputs' w'
      | r => r
      end
  end.

(** [main()] *)
Definition main (inputs : list (Input * datetime)) (w : World) : World * Status :=
  main_loop registry inputs (print BANNER w).

(* ===================================================================== *)
(** * Vocabulary of the specification                                     *)
(* ===================================================================== *)

Definition name_of (r : Registration) : string := r.1.1.1.

Definition aliases_of (r : Registration) : list string := r.1.1.2.

(** The command names the decorators register, and the aliases with the
    name each was registered for. *)
Definition registered_names : list string := map name_of registrations.

Definition registered_aliases : list (string * string) :=
  flat_map (fun r => map (fun a => (a, name_of r)) (aliases_of r)) registrations.

(** [str.upper] of one character whose upper-case variant is one
    character of the range: a-z and the small letters of the Latin-1
    supplement (U+00E0..U+00FE but the division sign).  Three more
    characters have an upper-case variant, which is outside the range or
    two letters long: the micro sign, the sharp s and the y with
    diaeresis; [has_upper] tells the others. *)
Definition upper_char (c : ascii) : ascii :=
  let n := Text.code c in
  if Text.between 97 122 n || Text.between 224 246 n || Text.between 248 254 n
  then ascii_of_N (n - 32) else c.


(** [s.upper()] of a string whose characters all have such a variant. *)
Fixpoint upper (s : string) : string :=
  match s with
  | String c s' => String (upper_char c) (upper s')
  | EmptyString => EmptyString
  end.

(** Every alias leads to a registered command. *)
Definition aliases_closed (reg : Registry) : Prop :=
  ∀ a name, ALIASES reg !! a = Some name → is_Some (COMMANDS reg !! name).

(** The keywords of the first two rules of [INTENT_MAP]. *)
Definition note_keywords : gset string := {["note"; "remember"; "jot"]}.

Definition todo_keywords : gset string := {["task"; "todo"; "remind"]}.

(** Nothing but the standard output differs between [w] and [w']. *)
Definition only_output (w w' : World) : Prop :=
  STATE w' = STATE w ∧ HISTORY w' = HISTORY w ∧ disk w' = disk w.

(** A call [_note(args)] that adds a note: there is a first argument and
    it is not the word that asks for the listing. *)
Definition is_note_add (args : list string) : Prop :=
  match args with
  | [] => False
  | a :: _ => a ≠ "list"
  end.

(** The note such a call adds at time [now]. *)
Definition added_note (op : list string * datetime) : Note.t :=
  {| Note.when := isoformat_seconds op.2; Note.text := Text.join " " op.1 |}.

(** A sequence of calls of [_note], each with the time of the call. *)
Definition add_notes (ops : list (list string * datetime)) (w : World) : World :=
  foldl (fun w op => (_note op.1 op.2 w).1) w ops.

(** The command [todo done ...] as the main loop runs it. *)
Definition todo_done (rest : list string) (now : datetime) (w : World) : World * Status :=
  dispatch registry "todo" ("done" :: rest) now w.

(** The state once the todo at position [idx] is marked done. *)
Definition marked (idx : nat) (st : State) : State :=
  {| notes := notes st; todos := alter mark_done idx (todos st); created := created st |}.

(** The decimal numeral of [k] with [z] zeros in front of it. *)
Definition numeral (z k : nat) : string := Text.zeros z ++ Text.str_nat k.

(** [sys.maxsize] of a 64-bit build: no list is longer. *)
Definition sys_maxsize : Z := 9223372036854775807.

(** The lines by which [todo done] refuses its argument.  The index is
    missing or has a character that is no digit; the number is out of
    range; [int] raised and the main loop reports it: a digit of the
    argument is no decimal digit (the argument is shown as [repr] writes
    it, cut after 200 characters), or the decimal digits at its head are
    more than [int] converts. *)
Definition refusals (rest : list string) : list string :=
  let arg := default EmptyString (head rest) in
  [ "Provide the todo number to mark done.";
    "Invalid number.";
    "Error running 'todo': invalid literal for int() with base 10: "
      ++ Text.take 200 (Text.repr arg);
    "Error running 'todo': Exceeds the limit (4300 digits) for integer string conversion: "
      ++ "value has " ++ Text.str_nat (String.length (Text.leading_digits arg))
      ++ " digits; use sys.set_int_max_str_digits() to increase the limit" ].

(** The arguments the fallback keeps: those that are no stop word. *)
Definition keep_args (args : list string) : list string :=
  filter (fun a => negb (is_stop_word a)) args.

(** A moment and a world to run examples in. *)
Definition example_time : datetime :=
  {| year := 2026; month := 11; day := 3;
     hour := 9; minute := 5; second := 7; microsecond := 0 |}.

Definition example_world : World :=
  {| STATE := default_state example_time; HISTORY := [];
     disk := {| file := Missing; write_error := None; writes := 0 |};
     stdout := [] |}.

(** The lexer is inside a token that it will have to give out: a word
    that is not empty or saw a quotation, a quotation, or an escape. *)
Definition in_token (st : Shlex.state) (tok : string) (quoted : bool) : Prop :=
  match st with
  | Shlex.InSpace => False
  | Shlex.InWord => quoted = true ∨ tok ≠ EmptyString
  | Shlex.InQuote _ => quoted = true
  | Shlex.InEscape None => True
  | Shlex.InEscape (Some _) => quoted = true
  end.

(** The superscript two, a digit for [isdigit] that [int] refuses. *)
Definition superscript_two : string := String "178" EmptyString.


(** A document that [dumps] and [loads] carry unchanged: its objects
    hold each key once and it holds no number. *)
Fixpoint distinct (l : list string) : bool :=
  match l with
  | [] => true
  | k :: l' => negb (bool_decide (k ∈ l')) && distinct l'
  end.

Fixpoint plain (v : json) : bool :=
  match v with
  | JNull | JBool _ | JString _ => true
  | JNumber _ => false
  | JArray l => forallb plain l
  | JObject kvs => distinct kvs.*1 && forallb (fun kv => plain kv.2) kvs
  end.

(** The calls of the scanner that decoding a document takes. *)
Fixpoint size (v : json) : nat :=
  match v with
  | JArray l => S (list_sum (map (fun x => S (size x)) l))
  | JObject kvs => S (list_sum (map (fun kv => S (size kv.2)) kvs))
  | _ => 1
  end.

(** No carriage return occurs in [s]. *)
Definition no_cr (s : string) : bool :=
  Text.all_chars (fun c => negb (Text.code c =? 13)%N) s.

(** The arrays and objects of [v] that are open inside one another. *)
Fixpoint height (v : json) : nat :=
  match v with
  | JArray l => S (list_max (map height l))
  | JObject kvs => S (list_max (map (fun kv => height kv.2) kvs))
  | _ => 0
  end.

(** Decoding gives back [v] from its encoding at any level of
    indentation, whatever follows, once the fuel covers the size of [v]
    and the nesting allowed covers its height. *)
Definition decodes (v : json) : Prop :=
  ∀ level depth fuel rest, (size v ≤ fuel)%nat → (height v ≤ depth)%nat →
    scan_once depth fuel (encode level v ++ rest) = Ok v rest.

Definition items_size (xs : list json) : nat := list_sum (map (fun x => S (size x)) xs).

Definition members_size (kvs : list (string * json)) : nat :=
  list_sum (map (fun kv => S (size kv.2)) kvs).

(** A scanner that succeeds with some fuel succeeds, with the same
    result, with any fuel that covers the characters it consumed. *)
Definition enough {A} (f : nat → string → scan A) (fuel : nat) : Prop :=
  ∀ s a r, f fuel s = Ok a r →
    String.length r < String.length s ∧ ∀ fuel', (String.length s - String.length r ≤ fuel')%nat → f fuel' s = Ok a r.

(** One change a handler makes to the state: a note added at the end, a
    todo that is not done added at the end, or the todo at a position of
    the list marked done. *)
Inductive change (st : State) : State → Prop :=
| change_note (n : Note.t) :
    change st {| notes := notes st ++ [n]; todos := todos st; created := created st |}
| change_todo (t : Todo.t) :
    Todo.done t = false →
    change st {| notes := notes st; todos := todos st ++ [t]; created := created st |}
| change_done (idx : nat) :
    idx < length (todos st) → change st (marked idx st).

(** A todo kept: the same text and creation date, and done if it was. *)
Definition kept (t t' : Todo.t) : Prop :=
  Todo.text t' = Todo.text t ∧ Todo.created t' = Todo.created t ∧
  (Todo.done t = true → Todo.done t' = true).

(** The state [st'] holds all that [st] held: every note at its position,
    every todo at its position and kept, and the creation date. *)
Definition grows (st st' : State) : Prop :=
  (∀ i n, notes st !! i = Some n → notes st' !! i = Some n) ∧
  (∀ i t, todos st !! i = Some t → ∃ t', todos st' !! i = Some t' ∧ kept t t') ∧
  created st' = created st.

(** The file holds the document of the state in memory. *)
Definition in_sync (w : World) : Prop :=
  file (disk w) = Content (dumps (state_json (STATE w))).

(** What one call of a handler, or one turn of the loop, does to the
    state and the disk: nothing, or one change of the state followed by
    the saving of the new state. *)
Definition effect (w w' : World) : Prop :=
  (STATE w' = STATE w ∧ disk w' = disk w) ∨
  (change (STATE w) (STATE w') ∧ disk w' = (save_state (STATE w') (disk w)).1).

(** The lines a turn adds to the history. *)
Definition recorded (inp : Input) : list string :=
  match inp with
  | Line raw =>
      match Text.strip raw with
      | EmptyString => []
      | line => [line]
      end
  | _ => []
  end.

(** [n] opening brackets, and [n] closing ones. *)
Fixpoint brackets (n : nat) : string :=
  match n with
  | O => EmptyString
  | S n' => String "[" (brackets n')
  end.

Fixpoint closing (n : nat) : string :=
  match n with
  | O => EmptyString
  | S n' => String "]" (closing n')
  end.

(** All the keywords of the intent rules. *)
Definition intent_keywords : gset string := ⋃ (INTENT_MAP.*1).

(* ===================================================================== *)
(** * The registry                                                        *)
(* ===================================================================== *)

Section RegistryFacts.

Implicit Types (reg : Registry) (name cmd a : string) (aliases : list string).

Lemma alias_fold_lookup aliases name (al : gmap string string) a target :
  foldl (fun al a => <[a := name]> al) al aliases !! a = Some target →
  target = name ∨ al !! a = Some target.
Proof.
  revert al. induction aliases as [|b aliases IH]; intros al; simpl.
  - by right.
  - intros H. destruct (IH _ H) as [->|H']; [by left|].
    destruct (decide (b = a)) as [->|Hne].
    + rewrite lookup_insert_eq in H'. left. congruence.
    + rewrite lookup_insert_ne in H' by done. by right.
Qed.

Lemma command_keeps name aliases h f reg cmd :
  is_Some (COMMANDS reg !! cmd) →
  is_Some (COMMANDS (command name aliases h f reg) !! cmd).
Proof.
  intros Hc. unfold command; simpl.
  destruct (decide (name = cmd)) as [->|Hne].
  - rewrite lookup_insert_eq. eauto.
  - by rewrite lookup_insert_ne.
Qed.

Lemma command_closed name aliases h f reg :
  aliases_closed reg → aliases_closed (command name aliases h f reg).
Proof.
  intros Hreg a target Ha. unfold command in Ha; simpl in Ha.
  destruct (alias_fold_lookup _ _ _ _ _ Ha) as [->|Hold].
  - unfold command; simpl. rewrite lookup_insert_eq. eauto.
  - apply command_keeps. eauto.
Qed.

Lemma register_closed reg r : aliases_closed reg → aliases_closed (register reg r).
Proof. destruct r as [[[name aliases] h] f]. apply command_closed. Qed.

Lemma registrations_closed (regs : list Registration) reg :
  aliases_closed reg → aliases_closed (foldl register reg regs).
Proof.
  revert reg. induction regs as [|r regs IH]; intros reg Hreg; simpl; [done|].
  apply IH, register_closed, Hreg.
Qed.

Lemma empty_closed : aliases_closed empty_registry.
Proof. intros a name Ha. simpl in Ha. by rewrite lookup_empty in Ha. Qed.

Lemma resolve_registered reg cmd name :
  aliases_closed reg → resolve reg cmd = Some name → is_Some (COMMANDS reg !! name).
Proof.
  intros Hreg. unfold resolve.
  destruct (COMMANDS reg !! cmd) eqn:Hc.
  - intros [= <-]. rewrite Hc. eauto.
  - destruct (ALIASES reg !! cmd) eqn:Ha; [|done].
    intros [= <-]. eauto.
Qed.

End RegistryFacts.

Lemma registry_names : dom (COMMANDS registry) = list_to_set registered_names.
Proof. vm_compute. reflexivity. Qed.

Lemma registry_aliases : ALIASES registry = list_to_map registered_aliases.
Proof. vm_compute. reflexivity. Qed.

(** C1.  On the registry the module builds: a registered command name
    resolves to itself; a registered alias resolves to the command name
    it was registered for; a token that is neither resolves to nothing;
    and, the lookup being an exact match, the upper-case variant of a
    registered name resolves to nothing. *)
Theorem resolve_exact :
  (∀ name, name ∈ registered_names → resolve registry name = Some name) ∧
  (∀ a name, (a, name) ∈ registered_aliases → resolve registry a = Some name) ∧
  (∀ token, token ∉ registered_names → token ∉ registered_aliases.*1 →
     resolve registry token = None) ∧
  (∀ name, name ∈ registered_names → resolve registry (upper name) = None).
Proof.
  split_and!.
  - intros name Hin.
    assert (is_Some (COMMANDS registry !! name)) as [e He].
    { apply elem_of_dom. rewrite registry_names. by apply elem_of_list_to_set. }
    unfold resolve. by rewrite He.
  - intros a name Hin.
    repeat (apply elem_of_cons in Hin as [[= -> ->]|Hin]; [by vm_compute|]).
    by apply elem_of_nil in Hin.
  - intros token Hname Halias. unfold resolve.
    assert (COMMANDS registry !! token = None) as ->.
    { apply not_elem_of_dom. rewrite registry_names. by rewrite elem_of_list_to_set. }
    rewrite registry_aliases.
    assert (list_to_map (M := gmap string string) registered_aliases !! token = None) as ->; [|done].
    by apply not_elem_of_list_to_map_1.
  - intros name Hin.
    repeat (apply elem_of_cons in Hin as [->|Hin]; [by vm_compute|]).
    by apply elem_of_nil in Hin.
Qed.

Lemma resolve_exact_witness :
  resolve registry "todo" = Some "todo" ∧ resolve registry "task" = Some "todo"
  ∧ resolve registry "please" = None ∧ resolve registry "TODO" = None.
Proof.
  destruct resolve_exact as (Hname & Halias & Hnone & Hupper).
  split_and!.
  - apply Hname. compute_done.
  - apply Halias. compute_done.
  - apply Hnone; compute_done.
  - apply (Hupper "todo"). compute_done.
Defined.

(** C9.  Whatever the decorators that ran at startup, every alias of the
    resulting table maps to a name present in [COMMANDS], and so does
    every result of [resolve]: a resolved name can be dispatched. *)
Theorem aliases_resolve_to_commands (regs : list Registration) :
  let reg := foldl register empty_registry regs in
  (∀ a name, ALIASES reg !! a = Some name → is_Some (COMMANDS reg !! name)) ∧
  (∀ token name, resolve reg token = Some name → is_Some (COMMANDS reg !! name)).
Proof.
  intros reg.
  assert (aliases_closed reg) as Hreg by apply registrations_closed, empty_closed.
  split; [exact Hreg|].
  intros token name. by apply resolve_registered.
Qed.

Lemma aliases_resolve_to_commands_witness :
  is_Some (COMMANDS registry !! "todo").
Proof.
  destruct (aliases_resolve_to_commands registrations) as [_ Hres].
  apply (Hres "task" "todo"). vm_compute. reflexivity.
Defined.

(* ===================================================================== *)
(** * The intent fallback                                                 *)
(* ===================================================================== *)

Section IntentFacts.

Implicit Types (rules : list (gset string * string)) (words keys : gset string).

Lemma first_match_Some rules words cmd :
  first_match rules words = Some cmd ↔
  ∃ i keys, rules !! i = Some (keys, cmd) ∧ keys ∩ words ≠ ∅ ∧
    ∀ j keys' cmd', j < i → rules !! j = Some (keys', cmd') → keys' ∩ words = ∅.
Proof.
  induction rules as [|[keys0 cmd0] rules IH]; simpl.
  - split; [done|]. intros (i & keys & Hi & _). by rewrite lookup_nil in Hi.
  - case_bool_decide as Hhit.
    + split.
      * intros [= <-]. exists 0, keys0. split_and!; [done|done|]. intros j ? ? Hj. lia.
      * intros (i & keys & Hi & Hne & Hbefore). destruct i as [|i].
        -- simpl in Hi. congruence.
        -- exfalso. apply Hhit. eapply (Hbefore 0); [lia|done].
    + rewrite IH. split.
      * intros (i & keys & Hi & Hne & Hbefore). exists (S i), keys.
        split_and!; [done|done|].
        intros [|j] keys' cmd' Hj Hlook; simpl in Hlook.
        -- injection Hlook as <- <-. exact Hhit.
        -- eapply Hbefore; [|done]. lia.
      * intros (i & keys & Hi & Hne & Hbefore). destruct i as [|i].
        -- simpl in Hi. injection Hi as <- <-. done.
        -- exists i, keys. split_and!; [done|done|].
           intros j keys' cmd' Hj Hlook. apply (Hbefore (S j) keys' cmd'); [lia|done].
Qed.

Lemma first_match_None rules words :
  first_match rules words = None ↔
  ∀ keys cmd, (keys, cmd) ∈ rules → keys ∩ words = ∅.
Proof.
  induction rules as [|[keys0 cmd0] rules IH]; simpl.
  - split; [|done]. intros _ keys cmd Hin. by apply elem_of_nil in Hin.
  - case_bool_decide as Hhit.
    + split; [done|]. intros Hall. exfalso. apply Hhit. eapply Hall, list_elem_of_here.
    + rewrite IH. split.
      * intros Hall keys cmd [[= -> ->]|Hin]%elem_of_cons; [exact Hhit|by eapply Hall].
      * intros Hall keys cmd Hin. eapply Hall, list_elem_of_further, Hin.
Qed.

End IntentFacts.

(** C2.  [guess_intent] lower-cases the tokens into a set and returns
    the command of the first rule of [INTENT_MAP], in the order of the
    list, whose keywords meet that set: the rule at some position [i]
    meets it and no rule before [i] does.  It returns nothing exactly
    when no rule meets the set.  An input with a note keyword and a todo
    keyword gives the note command. *)
Theorem guess_intent_first_rule (tokens : list string) :
  let words : gset string := list_to_set (Text.lower <$> tokens) in
  (∀ cmd, guess_intent tokens = Some cmd ↔
     ∃ i keys, INTENT_MAP !! i = Some (keys, cmd) ∧ keys ∩ words ≠ ∅ ∧
       ∀ j keys' cmd', j < i → INTENT_MAP !! j = Some (keys', cmd') →
         keys' ∩ words = ∅) ∧
  (guess_intent tokens = None ↔
     ∀ keys cmd, (keys, cmd) ∈ INTENT_MAP → keys ∩ words = ∅) ∧
  (∀ a b, a ∈ tokens → b ∈ tokens →
     Text.lower a ∈ note_keywords → Text.lower b ∈ todo_keywords →
     guess_intent tokens = Some "note").
Proof.
  intros words. split_and!.
  - intros cmd. apply first_match_Some.
  - apply first_match_None.
  - intros a b Ha _ Hnote _.
    apply first_match_Some. exists 0, note_keywords. split_and!.
    + reflexivity.
    + assert (Text.lower a ∈ note_keywords ∩ words) as Hin.
      { apply elem_of_intersection. split; [done|].
        apply elem_of_list_to_set, list_elem_of_fmap. eauto. }
      intros Hempty. apply (not_elem_of_empty (C := gset string) (Text.lower a)).
      rewrite <- Hempty. exact Hin.
    + intros j ? ? Hj. lia.
Qed.

Lemma guess_intent_first_rule_witness :
  guess_intent ["Todo"; "this"; "NOTE"] = Some "note".
Proof.
  destruct (guess_intent_first_rule ["Todo"; "this"; "NOTE"]) as (_ & _ & Hboth).
  apply (Hboth "NOTE" "Todo"); compute_done.
Defined.

(* ===================================================================== *)
(** * What the handlers leave alone                                       *)
(* ===================================================================== *)

Section Frames.

Implicit Types (w : World) (lines : list string).

Lemma only_output_refl w : only_output w w.
Proof. by repeat split. Qed.

Lemma only_output_out o w : only_output w (out o w).
Proof. by repeat split. Qed.

Lemma only_output_trans w1 w2 w3 :
  only_output w1 w2 → only_output w2 w3 → only_output w1 w3.
Proof. intros (?&?&?) (?&?&?). repeat split; congruence. Qed.

Lemma only_output_print_all lines w : only_output w (print_all lines w).
Proof.
  revert w. induction lines as [|s lines IH]; intros w; simpl.
  - apply only_output_refl.
  - eapply only_output_trans; [apply (only_output_out (Print s))|apply IH].
Qed.

Lemma stdout_print_all lines w :
  stdout (print_all lines w) = (stdout w ++ map Print lines)%list.
Proof.
  revert w. induction lines as [|s lines IH]; intros w; simpl.
  - by rewrite app_nil_r.
  - change (print_all (s :: lines) w) with (print_all lines (print s w)).
    rewrite IH. simpl. by rewrite <- app_assoc.
Qed.

Lemma save_STATE w : STATE (save w).1 = STATE w.
Proof. unfold save. by destruct (save_state (STATE w) (disk w)). Qed.

Lemma save_stdout w : stdout (save w).1 = stdout w.
Proof. unfold save. by destruct (save_state (STATE w) (disk w)). Qed.

Lemma save_HISTORY w : HISTORY (save w).1 = HISTORY w.
Proof. unfold save. by destruct (save_state (STATE w) (disk w)). Qed.

End Frames.

(** C10.  The listing of the notes, the listing of the todos and the
    help, with or without an argument, leave the state as it was and do
    not write the file: the disk, with its count of writes, is the same
    afterwards. *)
Theorem read_only_commands (args : list string) (now : datetime) (w : World) :
  only_output w (_note ("list" :: args) now w).1 ∧
  only_output w (_todo ("list" :: args) now w).1 ∧
  only_output w (_help registry args w).1.
Proof.
  split_and!.
  - simpl. destruct (notes (STATE w)); simpl.
    + apply only_output_out.
    + apply (only_output_print_all (_ :: _)).
  - simpl. destruct (todos (STATE w)); simpl.
    + apply only_output_out.
    + apply (only_output_print_all (_ :: _)).
  - unfold _help. destruct args as [|a args].
    + destruct (sorted_names registry) as [|n names]; simpl.
      * apply only_output_out.
      * eapply only_output_trans; [apply (only_output_out (Box "Commands:"))|].
        apply (only_output_print_all (_ :: _)).
    + destruct (resolve registry a) as [[|c cmd]|]; simpl; try apply only_output_out.
      destruct (help_of registry (String c cmd)) as [e|h]; simpl.
      * apply only_output_refl.
      * apply only_output_out.
Qed.

(* ===================================================================== *)
(** * Notes                                                               *)
(* ===================================================================== *)

Section Notes.

Implicit Types (w : World) (args : list string) (now : datetime).

Lemma note_add_STATE args now w :
  is_note_add args →
  STATE (_note args now w).1 =
  {| notes := notes (STATE w) ++ [added_note (args, now)];
     todos := todos (STATE w); created := created (STATE w) |}.
Proof.
  destruct args as [|a args]; [done|]. intros Ha.
  unfold _note. apply String.eqb_neq in Ha. rewrite Ha.
  set (w1 := set_STATE _ w).
  pose proof (save_STATE w1) as Hs.
  destruct (save w1) as [w2 [e|]]; simpl in *; by rewrite Hs.
Qed.

Lemma add_notes_STATE (ops : list (list string * datetime)) w :
  Forall (fun op => is_note_add op.1) ops →
  STATE (add_notes ops w) =
  {| notes := notes (STATE w) ++ map added_note ops;
     todos := todos (STATE w); created := created (STATE w) |}.
Proof.
  intros Hops. revert w.
  induction Hops as [|[args now] ops Hop Hops IH]; intros w.
  - simpl. rewrite app_nil_r. by destruct (STATE w).
  - change (add_notes ((args, now) :: ops) w) with (add_notes ops (_note args now w).1).
    rewrite IH, (note_add_STATE _ _ _ Hop). simpl.
    by rewrite <- app_assoc.
Qed.

Lemma note_list_stdout now w :
  stdout (_note ["list"] now w).1 =
  (stdout w ++
   match notes (STATE w) with
   | [] => [Print "(no notes)"]
   | ns => imap (fun i n => Print (note_line i n)) ns
   end)%list.
Proof.
  unfold _note. change (String.eqb "list" "list") with true. cbv iota.
  destruct (notes (STATE w)) as [|n ns]; [done|].
  cbn [fst]. rewrite stdout_print_all. f_equal.
  generalize (n :: ns). intros l.
  generalize note_line. induction l as [|x l IH]; intros f; simpl; [done|].
  f_equal. apply IH.
Qed.

End Notes.

(** C7.  After a sequence of calls that add notes, the list of notes is
    the list as it was, followed by one note for each call, in the order
    of the calls, whose text is the arguments of the call joined by a
    space; no earlier note has changed.  [note list] then prints the
    notes in that order, the note at position [i] (from 0) on the line
    numbered [i + 1]. *)
Theorem notes_append_only (ops : list (list string * datetime)) (w : World) :
  Forall (fun op => is_note_add op.1) ops →
  let w' := add_notes ops w in
  notes (STATE w') = (notes (STATE w) ++ map added_note ops)%list ∧
  (Note.text <$> notes (STATE w')) =
    ((Note.text <$> notes (STATE w)) ++ ((fun op => Text.join " " op.1) <$> ops))%list ∧
  (∀ i n, notes (STATE w) !! i = Some n → notes (STATE w') !! i = Some n) ∧
  (∀ now i n, notes (STATE w') !! i = Some n →
     stdout (_note ["list"] now w').1 !! (length (stdout w') + i) =
     Some (Print (Text.str_nat (i + 1) ++ ". " ++ Note.when n ++ " — " ++ Note.text n))) ∧
  (∀ now, length (stdout (_note ["list"] now w').1) =
          length (stdout w') + length (notes (STATE w')) `max` 1).
Proof.
  intros Hops w'.
  assert (notes (STATE w') = (notes (STATE w) ++ map added_note ops)%list) as Hnotes.
  { unfold w'. by rewrite add_notes_STATE. }
  split_and!.
  - exact Hnotes.
  - rewrite Hnotes, fmap_app. f_equal. rewrite <- list_fmap_compose. done.
  - intros i n Hi. rewrite Hnotes. by apply lookup_app_l_Some.
  - intros now i n Hi. rewrite note_list_stdout.
    rewrite lookup_app_r by lia.
    replace (length (stdout w') + i - length (stdout w')) with i by lia.
    destruct (notes (STATE w')) as [|n0 ns] eqn:Hn; [by rewrite lookup_nil in Hi|].
    rewrite list_lookup_imap, Hi. simpl. unfold note_line.
    by replace (i + 1) with (S i) by lia.
  - intros now. rewrite note_list_stdout, length_app.
    destruct (notes (STATE w')) as [|n0 ns]; [done|].
    rewrite length_imap. simpl. lia.
Qed.

Lemma notes_append_only_witness :
  let t := {| year := 2026; month := 11; day := 3;
              hour := 9; minute := 5; second := 7; microsecond := 0 |} in
  let w := {| STATE := default_state t; HISTORY := [];
              disk := {| file := Missing; write_error := None; writes := 0 |};
              stdout := [] |} in
  (Note.text <$> notes (STATE (add_notes [(["buy"; "milk"], t); (["call"; "mom"], t)] w)))
  = ["buy milk"; "call mom"].
Proof.
  intros t w.
  destruct (notes_append_only [(["buy"; "milk"], t); (["call"; "mom"], t)] w) as (_ & H & _).
  - repeat constructor; simpl; discriminate.
  - exact H.
Defined.

(* ===================================================================== *)
(** * Todos                                                               *)
(* ===================================================================== *)

Section Todos.

Implicit Types (w : World) (args rest : list string) (now : datetime) (s : string) (k : Z).

Lemma all_chars_impl (p q : ascii → bool) s :
  (∀ c, p c = true → q c = true) → Text.all_chars p s = true → Text.all_chars q s = true.
Proof.
  intros Hpq. induction s as [|c s IH]; simpl; [done|].
  intros [Hc Hs]%andb_prop. by rewrite (Hpq _ Hc), IH.
Qed.

Lemma leading_digits_digits s :
  Text.all_chars Text.is_ascii_digit (Text.leading_digits s) = true.
Proof.
  induction s as [|c s IH]; simpl; [done|].
  destruct (Text.is_ascii_digit c) eqn:Hc; simpl; [by rewrite Hc|done].
Qed.

(** What [int] converts: a string of decimal digits, at least one and no
    more than the limit. *)
Lemma int_inr s k :
  Text.int s = inr k →
  Text.all_chars Text.is_ascii_digit s = true ∧ s ≠ EmptyString ∧
  (String.length s ≤ Text.int_max_str_digits)%nat ∧ k = Text.digits_value 0 s.
Proof.
  unfold Text.int. cbv zeta.
  destruct (_ <? _)%nat eqn:Hlen; [done|]. apply Nat.ltb_ge in Hlen.
  destruct (String.eqb _ s) eqn:Heq; [|done]. apply String.eqb_eq in Heq.
  destruct (String.eqb s EmptyString) eqn:Hne; [done|]. apply String.eqb_neq in Hne.
  intros [= <-]. rewrite Heq in Hlen.
  split_and!; try done. rewrite <- Heq. apply leading_digits_digits.
Qed.

Lemma int_isdigit s k : Text.int s = inr k → Text.isdigit s = true.
Proof.
  intros (Hall & Hne & _)%int_inr. unfold Text.isdigit.
  destruct s as [|c s]; [done|].
  apply (all_chars_impl Text.is_ascii_digit Text.isdigit_char (String c s)); [|done].
  intros c'. unfold Text.is_ascii_digit, Text.isdigit_char. by intros ->.
Qed.

Lemma registry_todo : ∃ h, COMMANDS registry !! "todo" = Some {| fn := fn_todo; help := h |}.
Proof. vm_compute. eexists. reflexivity. Qed.

Lemma dispatch_todo args now w :
  dispatch registry "todo" args now w =
  match _todo args now w with
  | (w', Returned) => (w', Running)
  | (w', SystemExit status) => (w', Exited status)
  | (w', Raised e) => (print ("Error running 'todo': " ++ e) w', Running)
  end.
Proof.
  unfold dispatch. destruct registry_todo as [h ->]. simpl.
  by destruct (_todo args now w) as [w' [|e|status]].
Qed.

Lemma todo_done_in_range s more k now w :
  Text.int s = inr k → (1 ≤ k ≤ Z.of_nat (length (todos (STATE w))))%Z →
  _todo ("done" :: s :: more) now w =
  match save (set_STATE (marked (Z.to_nat (k - 1)) (STATE w)) w) with
  | (w', Some e) => (w', Raised e)
  | (w', None) => (print "Marked done." w', Returned)
  end.
Proof.
  intros Hint Hk. unfold _todo.
  change (String.eqb "done" "add") with false.
  change (String.eqb "done" "list") with false.
  change (String.eqb "done" "done") with true. cbv iota.
  rewrite (int_isdigit _ _ Hint), Hint. cbn [negb].
  assert ((k - 1 <? 0)%Z || (Z.of_nat (length (todos (STATE w))) <=? k - 1)%Z = false) as ->.
  { apply orb_false_intro; [apply Z.ltb_ge|apply Z.leb_gt]; lia. }
  reflexivity.
Qed.

End Todos.

(* ===================================================================== *)
(** * The fallback to the note command                                    *)
(* ===================================================================== *)

Section Fallback.

Implicit Types (w : World) (args parts : list string) (now : datetime).

Lemma registry_note : ∃ h, COMMANDS registry !! "note" = Some {| fn := fn_note; help := h |}.
Proof. vm_compute. eexists. reflexivity. Qed.

Lemma dispatch_note args now w :
  dispatch registry "note" args now w =
  match _note args now w with
  | (w', Returned) => (w', Running)
  | (w', SystemExit status) => (w', Exited status)
  | (w', Raised e) => (print ("Error running 'note': " ++ e) w', Running)
  end.
Proof.
  unfold dispatch. destruct registry_note as [h ->]. simpl.
  by destruct (_note args now w) as [w' [|e|status]].
Qed.

Lemma dispatch_note_STATE args now w :
  STATE (dispatch registry "note" args now w).1 = STATE (_note args now w).1.
Proof. rewrite dispatch_note. by destruct (_note args now w) as [w' [|e|status]]. Qed.

(** A line of two words or more holds a space: it is not the word that
    asks for the listing. *)
Lemma join_two_not_list (a b : string) args : Text.join " " (a :: b :: args) ≠ "list".
Proof.
  unfold Text.join. simpl. generalize (String.concat " " (b :: args)). intros r.
  destruct a as [|c1 [|c2 [|c3 [|c4 [|c5 a]]]]]; simpl; discriminate.
Qed.

Lemma fallback_whole_line cmd_token args now w :
  truthy (resolve registry cmd_token) = None →
  guess_intent (cmd_token :: args) = Some "note" →
  keep_args args = [] →
  STATE (interpret registry (cmd_token :: args) now w).1 =
  {| notes := notes (STATE w) ++ [added_note ([Text.join " " (cmd_token :: args)], now)];
     todos := todos (STATE w); created := created (STATE w) |}.
Proof.
  intros Hres Hguess Hkeep. unfold interpret.
  rewrite Hres, Hguess. fold (keep_args args). rewrite Hkeep. simpl truthy. cbv iota.
  change (String.eqb "note" "note") with true. cbv iota.
  rewrite dispatch_note_STATE. apply note_add_STATE. simpl.
  destruct args as [|a args].
  - intros Heq. unfold Text.join in Heq. simpl in Heq. subst cmd_token.
    vm_compute in Hguess. discriminate.
  - apply join_two_not_list.
Qed.

Lemma fallback_kept_arguments cmd_token args a kept now w :
  truthy (resolve registry cmd_token) = None →
  guess_intent (cmd_token :: args) = Some "note" →
  keep_args args = a :: kept → a ≠ "list" →
  STATE (interpret registry (cmd_token :: args) now w).1 =
  {| notes := notes (STATE w) ++ [added_note (a :: kept, now)];
     todos := todos (STATE w); created := created (STATE w) |}.
Proof.
  intros Hres Hguess Hkeep Ha. unfold interpret.
  rewrite Hres, Hguess. fold (keep_args args). rewrite Hkeep. simpl truthy. cbv iota.
  rewrite dispatch_note_STATE. by apply note_add_STATE.
Qed.

End Fallback.

(** C3, as the code has it.  The line [please remember call mom] splits
    into four tokens, the first of which resolves to nothing; the intent
    fallback finds the note command; the arguments kept are the three
    tokens after the first, none of them a stop word, and the note
    stored has the text [remember call mom].  The whole line is stored
    only when no argument is kept: then the text of the note is the
    tokens of the line joined by a space, and otherwise it is the
    arguments kept joined by a space (the first of them not being the
    word that asks for the listing). *)
Theorem please_remember_stores_arguments (now : datetime) (w : World) :
  let line := "please remember call mom" in
  let parts := ["please"; "remember"; "call"; "mom"] in
  Shlex.split (Text.strip line) = inr parts ∧
  resolve registry "please" = None ∧
  guess_intent parts = Some "note" ∧
  keep_args ["remember"; "call"; "mom"] = ["remember"; "call"; "mom"] ∧
  notes (STATE (main_step registry (Line line) now w).1) =
    (notes (STATE w) ++
     [{| Note.when := isoformat_seconds now; Note.text := "remember call mom" |}])%list ∧
  (∀ cmd_token args,
     truthy (resolve registry cmd_token) = None →
     guess_intent (cmd_token :: args) = Some "note" →
     keep_args args = [] →
     notes (STATE (interpret registry (cmd_token :: args) now w).1) =
       (notes (STATE w) ++
        [{| Note.when := isoformat_seconds now;
            Note.text := Text.join " " (cmd_token :: args) |}])%list) ∧
  (∀ cmd_token args a kept,
     truthy (resolve registry cmd_token) = None →
     guess_intent (cmd_token :: args) = Some "note" →
     keep_args args = a :: kept → a ≠ "list" →
     notes (STATE (interpret registry (cmd_token :: args) now w).1) =
       (notes (STATE w) ++
        [{| Note.when := isoformat_seconds now;
            Note.text := Text.join " " (a :: kept) |}])%list).
Proof.
  intros line parts.
  assert (Shlex.split (Text.strip line) = inr parts) as Hsplit by (vm_compute; reflexivity).
  assert (resolve registry "please" = None) as Hres by (vm_compute; reflexivity).
  assert (guess_intent parts = Some "note") as Hguess by (vm_compute; reflexivity).
  assert (keep_args ["remember"; "call"; "mom"] = ["remember"; "call"; "mom"]) as Hkeep
    by (vm_compute; reflexivity).
  split_and!; try done.
  - unfold main_step.
    change (Text.strip line) with line in *. unfold line at 1. cbv iota.
    rewrite Hsplit. unfold interpret, parts. rewrite Hres. simpl truthy. cbv iota.
    fold parts. rewrite Hguess. simpl truthy. cbv iota.
    fold (keep_args ["remember"; "call"; "mom"]). rewrite Hkeep.
    rewrite dispatch_note_STATE, note_add_STATE by (simpl; discriminate).
    reflexivity.
  - intros cmd_token args H1 H2 H3.
    by rewrite (fallback_whole_line _ _ _ _ H1 H2 H3).
  - intros cmd_token args a kept H1 H2 H3 H4.
    by rewrite (fallback_kept_arguments _ _ _ _ _ _ H1 H2 H3 H4).
Qed.

Lemma please_remember_stores_arguments_witness :
  notes (STATE (interpret registry ["remember"; "please"] example_time example_world).1) =
  [{| Note.when := "2026-11-03T09:05:07"; Note.text := "remember please" |}].
Proof.
  destruct (please_remember_stores_arguments example_time example_world)
    as (_ & _ & _ & _ & _ & Hwhole & _).
  apply (Hwhole "remember" ["please"]); vm_compute; reflexivity.
Defined.

(** C3 as the specification words it does not hold: on the line
    [please remember call mom] the note stored is not the whole line. *)
Lemma please_remember_not_whole_line :
  let w' := (main_step registry (Line "please remember call mom") example_time example_world).1 in
  (Note.text <$> notes (STATE w')) = ["remember call mom"] ∧
  (Note.text <$> notes (STATE w')) ≠ ["please remember call mom"].
Proof. vm_compute. split; [reflexivity|discriminate]. Qed.

(* ===================================================================== *)
(** * The main loop: errors and exits                                     *)
(* ===================================================================== *)

Section Lexer.

Implicit Types (s tok : string) (c : ascii) (st : Shlex.state) (quoted : bool).

Lemma push_not_empty tok c : Shlex.push tok c ≠ EmptyString.
Proof. unfold Shlex.push. destruct tok; discriminate. Qed.

Lemma emit_not_empty tok (r : string + list string) : Shlex.emit tok r ≠ inr [].
Proof. destruct r; discriminate. Qed.

(** Inside a token the lexer ends with that token or with an error:
    never with no token at all. *)
Lemma lex_in_token s : ∀ st tok quoted,
  in_token st tok quoted → Shlex.lex st tok quoted s ≠ inr [].
Proof.
  induction s as [|c s IH]; intros st tok quoted Hin.
  - destruct st as [| |q|[q|]]; simpl in *; try done.
    destruct Hin as [->|Hne]; [done|].
    apply String.eqb_neq in Hne. rewrite Hne.
    by rewrite orb_true_r.
  - destruct st as [| |q|[q|]]; simpl in Hin |- *.
    + done.
    + assert (quoted || negb (String.eqb tok EmptyString) = true) as Hemit.
      { destruct Hin as [->|Hne]; [done|].
        apply String.eqb_neq in Hne. rewrite Hne. by rewrite orb_true_r. }
      rewrite Hemit.
      destruct (Shlex.is_whitespace c); [apply emit_not_empty|].
      destruct (Shlex.is_quote c); [by apply IH|].
      destruct (Shlex.is_escape c); [by apply IH|].
      apply IH. right. apply push_not_empty.
    + destruct (Ascii.eqb c q); [apply IH; by left|].
      destruct (Shlex.is_escape c && Shlex.is_escapedquote q); by apply IH.
    + destruct (negb (Shlex.is_escape c) && negb (Ascii.eqb c q)); by apply IH.
    + apply IH. right. apply push_not_empty.
Qed.

Lemma whitespace_isspace c : Shlex.is_whitespace c = true → Text.isspace c = true.
Proof.
  unfold Shlex.is_whitespace, Text.isspace, Text.between.
  generalize (Text.code c). intros n H.
  repeat (apply orb_prop in H as [H|H]); apply N.eqb_eq in H; by subst n.
Qed.

Lemma split_not_empty c s :
  Text.isspace c = false → Shlex.split (String c s) ≠ inr [].
Proof.
  intros Hc. unfold Shlex.split. simpl.
  destruct (Shlex.is_whitespace c) eqn:Hws.
  { apply whitespace_isspace in Hws. congruence. }
  destruct (Shlex.is_escape c); [by apply lex_in_token|].
  destruct (Shlex.is_quote c); [by apply lex_in_token|].
  apply lex_in_token. by right.
Qed.

Lemma lstrip_head s :
  Text.lstrip s = EmptyString ∨
  ∃ c s', Text.lstrip s = String c s' ∧ Text.isspace c = false.
Proof.
  induction s as [|c s IH]; simpl; [by left|].
  destruct (Text.isspace c) eqn:Hc; [done|]. right. eauto.
Qed.

Lemma rstrip_head c s :
  Text.isspace c = false → ∃ s', Text.rstrip (String c s) = String c s'.
Proof. intros Hc. simpl. rewrite Hc. destruct (Text.rstrip s); eauto. Qed.

(** A stripped line is empty or starts with a character that is no space. *)
Lemma strip_head s :
  Text.strip s = EmptyString ∨
  ∃ c s', Text.strip s = String c s' ∧ Text.isspace c = false.
Proof.
  unfold Text.strip. destruct (lstrip_head s) as [->|(c & s' & -> & Hc)].
  - by left.
  - right. destruct (rstrip_head c s' Hc) as [s'' ->]. eauto.
Qed.

End Lexer.

Section Exits.

Implicit Types (w : World) (args parts : list string) (now : datetime) (cmd : string).

Lemma call_no_exit reg f args now w w' status :
  call reg f args now w = (w', SystemExit status) → f = fn_exit ∧ status = 0%Z.
Proof.
  destruct f; simpl; unfold _help, _time, _say, _note, _todo, _history, _clear, _exit;
    intros H; repeat case_match; simplify_eq; done.
Qed.

Lemma registry_handlers :
  (λ p : string * CommandEntry, (p.1, fn p.2)) <$> map_to_list (COMMANDS registry) =
  [("say", fn_say); ("clear", fn_clear); ("exit", fn_exit); ("note", fn_note);
   ("todo", fn_todo); ("time", fn_time); ("help", fn_help); ("history", fn_history)].
Proof. vm_compute. reflexivity. Qed.

Lemma registry_exit_only cmd e :
  COMMANDS registry !! cmd = Some e → fn e = fn_exit → cmd = "exit".
Proof.
  intros Hlook Hfn. apply elem_of_map_to_list in Hlook.
  apply (list_elem_of_fmap_2 (λ p : string * CommandEntry, (p.1, fn p.2))) in Hlook.
  rewrite registry_handlers in Hlook. simpl in Hlook. rewrite Hfn in Hlook.
  repeat (apply elem_of_cons in Hlook as [Heq|Hlook]; [by simplify_eq|]).
  by apply elem_of_nil in Hlook.
Qed.

Lemma first_match_range (rules : list (gset string * string)) words cmd :
  first_match rules words = Some cmd → cmd ∈ rules.*2.
Proof.
  induction rules as [|[keys c] rules IH]; simpl; [done|].
  case_bool_decide.
  - intros [= ->]. apply list_elem_of_here.
  - intros H'. apply list_elem_of_further, IH, H'.
Qed.

Lemma dispatch_status cmd args now w :
  (dispatch registry cmd args now w).2 = Running ∨
  (dispatch registry cmd args now w).2 = Exited 0 ∧ cmd = "exit".
Proof.
  unfold dispatch. destruct (COMMANDS registry !! cmd) as [e|] eqn:Hlook; [|by left].
  destruct (call registry (fn e) args now w) as [w' [|msg|status]] eqn:Hcall; simpl;
    [by left|by left|].
  apply call_no_exit in Hcall as [Hfn ->]. right. split; [done|].
  by eapply registry_exit_only.
Qed.

Lemma truthy_Some (o : option string) cmd : truthy o = Some cmd → o = Some cmd.
Proof. destruct o as [[|c s]|]; simpl; congruence. Qed.

Lemma interpret_status c args now w :
  (interpret registry (c :: args) now w).2 = Running ∨
  (interpret registry (c :: args) now w).2 = Exited 0 ∧ resolve registry c = Some "exit".
Proof.
  unfold interpret.
  destruct (truthy (resolve registry c)) as [cmd|] eqn:Hres.
  - apply truthy_Some in Hres.
    destruct (dispatch_status cmd args now w) as [H|[H ->]]; [by left|by right].
  - destruct (truthy (guess_intent (c :: args))) as [guess|] eqn:Hguess; [|by left].
    apply truthy_Some in Hguess.
    match goal with |- context [dispatch registry guess ?a now w] =>
      destruct (dispatch_status guess a now w) as [H|[H ->]]; [by left|] end.
    apply first_match_range in Hguess. vm_compute in Hguess.
    repeat (apply elem_of_cons in Hguess as [?|Hguess]; [done|]).
    by apply elem_of_nil in Hguess.
Qed.

End Exits.

(** C8, as the code has it.  When the handler of a registered command
    raises an error, the dispatch prints
    [Error running '<cmd>': <message>], with a capital E, the name of
    the command and the message of the error, and the loop goes on.  A
    turn of the loop ends the process only with status 0 and only on the
    end of the input, on an interrupt, or on a line whose first token
    resolves to the exit command; no turn ends it by an error. *)
Theorem handler_errors_are_reported :
  (∀ cmd e args now w w1 msg,
     COMMANDS registry !! cmd = Some e →
     call registry (fn e) args now w = (w1, Raised msg) →
     dispatch registry cmd args now w =
       (print ("Error running '" ++ cmd ++ "': " ++ msg) w1, Running)) ∧
  (∀ inp now w,
     (main_step registry inp now w).2 = Running ∨
     (main_step registry inp now w).2 = Exited 0 ∧
       (inp = EndOfInput ∨ inp = Interrupt ∨
        ∃ raw cmd_token args,
          inp = Line raw ∧
          Shlex.split (Text.strip raw) = inr (cmd_token :: args) ∧
          resolve registry cmd_token = Some "exit")).
Proof.
  split.
  - intros cmd e args now w w1 msg Hlook Hcall. unfold dispatch.
    by rewrite Hlook, Hcall.
  - intros [raw| |] now w; [|right; eauto..].
    unfold main_step. cbv zeta.
    destruct (strip_head raw) as [->|(c & s & Hstrip & Hc)]; [by left|].
    rewrite Hstrip.
    pose proof (split_not_empty c s Hc) as Hsplit.
    destruct (Shlex.split (String c s)) as [e|[|cmd_token args]] eqn:Hparts;
      [by left|done|].
    destruct (interpret_status cmd_token args now
                (record_line (String c s) (out (Prompt "va> ") w)))
      as [H|[H Hres]]; [by left|].
    right. split; [done|]. right. right. exists raw, cmd_token, args.
    by rewrite Hstrip.
Qed.

Lemma handler_errors_are_reported_witness :
  dispatch registry "todo" ["done"; superscript_two] example_time example_world =
  (print ("Error running 'todo': invalid literal for int() with base 10: '"
          ++ superscript_two ++ "'") example_world, Running).
Proof.
  destruct handler_errors_are_reported as [Hraised _].
  destruct registry_todo as [h Hh].
  apply (Hraised "todo" _ _ _ _ _ _ Hh). vm_compute. reflexivity.
Defined.

(** C8 as the specification words it does not hold: the line printed
    starts with a capital letter. *)
Lemma error_line_is_capitalised :
  let w' := (dispatch registry "todo" ["done"; superscript_two] example_time example_world).1 in
  let msg := "invalid literal for int() with base 10: '" ++ superscript_two ++ "'" in
  stdout w' = [Print ("Error running 'todo': " ++ msg)] ∧
  stdout w' ≠ [Print ("error running 'todo': " ++ msg)].
Proof. vm_compute. split; [reflexivity|discriminate]. Qed.

(* ===================================================================== *)
(** * The state file: [dumps] and [loads]                                 *)
(* ===================================================================== *)

#[local] Arguments String.append : simpl nomatch.
#[local] Arguments Json.newline_indent : simpl never.

Section Strings.

Implicit Types (a b c s t : string).

Lemma sapp_assoc a b c : (a ++ b) ++ c = a ++ (b ++ c).
Proof. induction a as [|x a IH]; simpl; [done|]. by rewrite IH. Qed.

Lemma sapp_nil_r a : a ++ EmptyString = a.
Proof. induction a as [|x a IH]; simpl; [done|]. by rewrite IH. Qed.

Lemma slength_app a b : String.length (a ++ b) = String.length a + String.length b.
Proof. induction a as [|x a IH]; simpl; [done|]. by rewrite IH. Qed.

Lemma all_chars_app p a b :
  Text.all_chars p (a ++ b) = Text.all_chars p a && Text.all_chars p b.
Proof. induction a as [|x a IH]; simpl; [done|]. by rewrite IH, andb_assoc. Qed.

End Strings.

Section StringCodec.

Lemma scanstring_char c t :
  scanstring (encode_char c ++ t) =
  scan_bind (scanstring t) (fun r rest => Ok (String c r) rest).
Proof. destruct c as [[] [] [] [] [] [] [] []]; reflexivity. Qed.

Lemma scanstring_encode s rest :
  scanstring (encode_chars s ++ String dquote rest) = Ok s rest.
Proof.
  induction s as [|c s IH]; simpl; [done|].
  by rewrite sapp_assoc, scanstring_char, IH.
Qed.

Lemma no_cr_encode_char c : no_cr (encode_char c) = true.
Proof. destruct c as [[] [] [] [] [] [] [] []]; reflexivity. Qed.

Lemma length_encode_char c : (1 ≤ String.length (encode_char c))%nat.
Proof. destruct c as [[] [] [] [] [] [] [] []]; simpl; lia. Qed.

End StringCodec.

(** Induction on a document, the items of an array and the values of an
    object being covered by the hypothesis. *)
Lemma json_induction (P : json → Prop) :
  P JNull → (∀ b, P (JBool b)) → (∀ lit, P (JNumber lit)) → (∀ s, P (JString s)) →
  (∀ l, Forall P l → P (JArray l)) →
  (∀ kvs, Forall (λ kv, P kv.2) kvs → P (JObject kvs)) →
  ∀ v, P v.
Proof.
  intros Hnull Hbool Hnumber Hstring Harray Hobject.
  fix IH 1. intros [|b|lit|s|l|kvs]; [done..| |].
  - apply Harray. induction l as [|x l IHl]; constructor; [apply IH|apply IHl].
  - apply Hobject. induction kvs as [|kv l IHl]; constructor; [apply IH|apply IHl].
Qed.

Section Decoding.

Implicit Types (v x : json) (xs : list json) (kvs : list (string * json))
  (level fuel : nat) (rest t : string).

Lemma skip_ws_spaces n t : skip_ws (Text.spaces n ++ t) = skip_ws t.
Proof. induction n as [|n IH]; simpl; done. Qed.

Lemma skip_ws_indent level t : skip_ws (newline_indent level ++ t) = skip_ws t.
Proof. unfold newline_indent. simpl. apply skip_ws_spaces. Qed.

(** An encoded document starts with a character that is neither a space
    nor a closing bracket. *)
Lemma encode_head level v rest :
  plain v = true →
  ∃ c t, encode level v ++ rest = String c t ∧ is_ws c = false ∧ Ascii.eqb "]" c = false.
Proof.
  destruct v as [|[]|lit|s|[|x xs]|[|[k x] kvs]]; simpl; try done; intros _;
    eexists _, _; split_and!; try reflexivity.
Qed.

Lemma skip_ws_encode level v rest :
  plain v = true → skip_ws (encode level v ++ rest) = encode level v ++ rest.
Proof.
  intros Hv. destruct (encode_head level v rest Hv) as (c & t & -> & Hc & _).
  simpl. by rewrite Hc.
Qed.

Lemma after_bracket_encode level v rest :
  plain v = true → after "]" (encode level v ++ rest) = None.
Proof.
  intros Hv. destruct (encode_head level v rest Hv) as (c & t & -> & _ & Hc).
  unfold after. by rewrite Hc.
Qed.

Lemma items_size_cons x xs : items_size (x :: xs) = S (size x + items_size xs).
Proof. reflexivity. Qed.

Lemma members_size_cons k x kvs : members_size ((k, x) :: kvs) = S (size x + members_size kvs).
Proof. reflexivity. Qed.

Lemma after_eq c t : after c (String c t) = Some t.
Proof. unfold after. by rewrite Ascii.eqb_refl. Qed.

Lemma after_ne c c' t : Ascii.eqb c c' = false → after c (String c' t) = None.
Proof. unfold after. by intros ->. Qed.

Lemma scan_items_S depth fuel t :
  scan_items depth (S fuel) t =
  scan_bind (scan_once depth fuel t) (fun v rest =>
    let rest := skip_ws rest in
    match after "]" rest, after "," rest with
    | Some rest', _ => Ok [v] rest'
    | None, Some rest' =>
        scan_bind (scan_items depth fuel (skip_ws rest'))
          (fun vs rest'' => Ok (v :: vs) rest'')
    | None, None => Err
    end).
Proof. reflexivity. Qed.

Lemma scan_items_encode xs : ∀ x level depth fuel rest,
  decodes x → Forall decodes xs → forallb plain xs = true →
  (items_size (x :: xs) ≤ fuel)%nat →
  Forall (fun y => (height y ≤ depth)%nat) (x :: xs) →
  scan_items depth fuel
    (encode (S level) x ++ encode_items (encode (S level)) level xs ++ rest)
  = Ok (x :: xs) rest.
Proof.
  induction xs as [|y ys IH]; intros x level depth fuel rest Hx Hxs Hplain Hfuel Hh;
    rewrite items_size_cons in Hfuel;
    (destruct fuel as [|fuel]; [lia|]);
    inversion Hh as [|? ? Hhx Hhxs]; subst;
    rewrite scan_items_S, Hx by lia; unfold scan_bind at 1; cbv beta zeta.
  - assert (skip_ws (encode_items (encode (S level)) level [] ++ rest) = String "]" rest) as ->.
    { cbn [encode_items]. by rewrite sapp_assoc, skip_ws_indent. }
    by rewrite after_eq.
  - apply andb_prop in Hplain as [Hy Hys].
    inversion Hxs as [|? ? Hdy Hdys]; subst.
    assert (skip_ws (encode_items (encode (S level)) level (y :: ys) ++ rest)
            = String "," (newline_indent (S level) ++ encode (S level) y
                          ++ encode_items (encode (S level)) level ys ++ rest)) as ->.
    { cbn [encode_items]. by rewrite !sapp_assoc. }
    rewrite after_ne, after_eq by done.
    rewrite skip_ws_indent, skip_ws_encode by done.
    rewrite IH; [done|done|done|done|lia|done].
Qed.

End Decoding.

Section Objects.

Implicit Types (v x : json) (kvs : list (string * json)) (k : string)
  (level fuel : nat) (rest t : string).

Lemma distinct_NoDup (l : list string) : distinct l = true ↔ NoDup l.
Proof.
  induction l as [|k l IH]; simpl.
  - split; [constructor|done].
  - rewrite NoDup_cons, andb_true_iff, negb_true_iff, bool_decide_eq_false. by rewrite IH.
Qed.

Lemma dict_set_fresh k v kvs : k ∉ kvs.*1 → dict_set k v kvs = (kvs ++ [(k, v)])%list.
Proof.
  induction kvs as [|[k' v'] kvs IH]; simpl; [done|].
  intros Hk. apply not_elem_of_cons in Hk as [Hne Hk].
  apply String.eqb_neq in Hne. rewrite Hne. by rewrite IH.
Qed.

Lemma dict_fold_distinct kvs : ∀ acc : list (string * json),
  NoDup (acc.*1 ++ kvs.*1) →
  foldl (fun d kv => dict_set kv.1 kv.2 d) acc kvs = (acc ++ kvs)%list.
Proof.
  induction kvs as [|[k v] kvs IH]; intros acc Hnd; simpl.
  - by rewrite app_nil_r.
  - simpl in Hnd. rewrite dict_set_fresh.
    + rewrite IH; [by rewrite <- app_assoc|].
      rewrite fmap_app. simpl. by rewrite <- app_assoc.
    + apply NoDup_app in Hnd as (_ & Hdisj & _).
      intros Hin. apply (Hdisj k Hin). apply list_elem_of_here.
Qed.

Lemma dict_of_pairs_distinct kvs : distinct kvs.*1 = true → dict_of_pairs kvs = kvs.
Proof.
  intros Hd. unfold dict_of_pairs. rewrite dict_fold_distinct; [done|].
  simpl. by apply distinct_NoDup.
Qed.

End Objects.

Section Values.

Implicit Types (v x : json) (xs : list json) (kvs : list (string * json)) (k : string)
  (level fuel : nat) (rest t : string) (c : ascii).

Lemma skip_ws_keep c t : is_ws c = false → skip_ws (String c t) = String c t.
Proof. simpl. by intros ->. Qed.

Lemma skip_ws_drop c t : is_ws c = true → skip_ws (String c t) = skip_ws t.
Proof. simpl. by intros ->. Qed.

Lemma encode_string_app k t :
  encode_string k ++ t = String dquote (encode_chars k ++ String dquote t).
Proof. unfold encode_string. simpl. by rewrite sapp_assoc. Qed.

Lemma scan_members_S depth fuel t :
  scan_members depth (S fuel) t =
  scan_bind (scanstring t) (fun key rest =>
    match after ":" (skip_ws rest) with
    | None => Err
    | Some rest1 =>
        scan_bind (scan_once depth fuel (skip_ws rest1)) (fun v rest2 =>
          let rest2 := skip_ws rest2 in
          match after "}" rest2, after "," rest2 with
          | Some rest3, _ => Ok [(key, v)] rest3
          | None, Some rest3 =>
              match after dquote (skip_ws rest3) with
              | Some rest4 =>
                  scan_bind (scan_members depth fuel rest4)
                    (fun kvs rest5 => Ok ((key, v) :: kvs) rest5)
              | None => Err
              end
          | None, None => Err
          end)
    end).
Proof. reflexivity. Qed.

Lemma scan_members_encode kvs : ∀ k x level depth fuel rest,
  decodes x → plain x = true →
  Forall (fun kv => decodes kv.2) kvs → forallb (fun kv => plain kv.2) kvs = true →
  (members_size ((k, x) :: kvs) ≤ fuel)%nat →
  Forall (fun kv => (height kv.2 ≤ depth)%nat) ((k, x) :: kvs) →
  scan_members depth fuel
    (encode_chars k ++ String dquote
       (": " ++ encode (S level) x ++ encode_members (encode (S level)) level kvs ++ rest))
  = Ok ((k, x) :: kvs) rest.
Proof.
  induction kvs as [|[k' y] kvs IH];
    intros k x level depth fuel rest Hx Hpx Hkvs Hplain Hfuel Hh;
    rewrite members_size_cons in Hfuel;
    (destruct fuel as [|fuel]; [lia|]);
    inversion Hh as [|? ? Hhx Hhxs]; subst; simpl in Hhx;
    rewrite scan_members_S, scanstring_encode; unfold scan_bind at 1; cbv beta;
    change (": " ++ ?t) with (String ":" (String " " t));
    rewrite (skip_ws_keep ":"), after_eq, (skip_ws_drop " "), skip_ws_encode by done;
    rewrite Hx by lia; unfold scan_bind at 1; cbv beta zeta.
  - assert (skip_ws (encode_members (encode (S level)) level [] ++ rest) = String "}" rest)
      as ->.
    { cbn [encode_members]. by rewrite sapp_assoc, skip_ws_indent. }
    by rewrite after_eq.
  - apply andb_prop in Hplain as [Hy Hys].
    inversion Hkvs as [|? ? Hdy Hdys]; subst. simpl in Hdy, Hy.
    assert (skip_ws (encode_members (encode (S level)) level ((k', y) :: kvs) ++ rest)
            = String "," (newline_indent (S level) ++ String dquote
                (encode_chars k' ++ String dquote
                   (": " ++ encode (S level) y
                    ++ encode_members (encode (S level)) level kvs ++ rest)))) as ->.
    { cbn [encode_members]. by rewrite !sapp_assoc, encode_string_app. }
    rewrite after_ne, after_eq by done.
    rewrite skip_ws_indent, (skip_ws_keep dquote), after_eq by done.
    rewrite IH; [done|done|done|done|done|lia|done].
Qed.

Lemma scan_once_string depth fuel t :
  scan_once depth (S fuel) (String dquote t) =
  scan_bind (scanstring t) (fun str rest => Ok (JString str) rest).
Proof. reflexivity. Qed.

Lemma scan_once_array depth fuel t :
  scan_once (S depth) (S fuel) (String "[" t) =
  match after "]" (skip_ws t) with
  | Some rest => Ok (JArray []) rest
  | None =>
      scan_bind (scan_items depth fuel (skip_ws t)) (fun items rest => Ok (JArray items) rest)
  end.
Proof. reflexivity. Qed.

Lemma scan_once_object depth fuel t :
  scan_once (S depth) (S fuel) (String "{" t) =
  match after "}" (skip_ws t), after dquote (skip_ws t) with
  | Some rest, _ => Ok (JObject []) rest
  | None, Some s3 =>
      scan_bind (scan_members depth fuel s3)
        (fun pairs rest => Ok (JObject (dict_of_pairs pairs)) rest)
  | None, None => Err
  end.
Proof. reflexivity. Qed.

Lemma height_array x xs depth :
  (height (JArray (x :: xs)) ≤ S depth)%nat →
  Forall (fun y => (height y ≤ depth)%nat) (x :: xs).
Proof.
  change (height (JArray (x :: xs))) with (S (list_max (map height (x :: xs)))).
  intros H%le_S_n. apply list_max_le in H. by apply List.Forall_map in H.
Qed.

Lemma height_object k x kvs depth :
  (height (JObject ((k, x) :: kvs)) ≤ S depth)%nat →
  Forall (fun kv => (height kv.2 ≤ depth)%nat) ((k, x) :: kvs).
Proof.
  change (height (JObject ((k, x) :: kvs)))
    with (S (list_max (map (fun kv => height kv.2) ((k, x) :: kvs)))).
  intros H%le_S_n. apply list_max_le in H. by apply List.Forall_map in H.
Qed.

(** Every plain document is decoded from its encoding. *)
Lemma encode_decodes v : plain v = true → decodes v.
Proof.
  induction v as [|b|lit|s|l IH|kvs IH] using json_induction;
    intros Hplain level depth fuel rest Hfuel Hheight;
    (destruct fuel as [|fuel]; [simpl in Hfuel; lia|]).
  - reflexivity.
  - by destruct b.
  - done.
  - cbn [encode]. by rewrite encode_string_app, scan_once_string, scanstring_encode.
  - destruct depth as [|depth]; [destruct l; simpl in Hheight; lia|].
    destruct l as [|x xs]; [reflexivity|].
    cbn [plain forallb] in Hplain. apply andb_prop in Hplain as [Hx Hxs].
    inversion IH as [|? ? Hdx Hdxs]; subst.
    cbn [encode]. rewrite !sapp_assoc.
    change ("[" ++ ?t) with (String "[" t).
    rewrite scan_once_array.
    rewrite skip_ws_indent, skip_ws_encode, after_bracket_encode by done.
    rewrite scan_items_encode; [done|by apply Hdx|..].
    + apply Forall_forall. intros y Hy.
      rewrite Forall_forall in Hdxs. apply Hdxs; [done|].
      rewrite forallb_forall in Hxs. apply Hxs. by apply list_elem_of_In.
    + done.
    + change (size (JArray (x :: xs))) with (S (items_size (x :: xs))) in Hfuel. lia.
    + by apply height_array.
  - destruct depth as [|depth]; [destruct kvs; simpl in Hheight; lia|].
    destruct kvs as [|[k x] kvs]; [reflexivity|].
    cbn [plain] in Hplain. apply andb_prop in Hplain as [Hkeys Hplain].
    cbn [forallb] in Hplain. apply andb_prop in Hplain as [Hx Hxs]. simpl in Hx.
    inversion IH as [|? ? Hdx Hdxs]; subst. simpl in Hdx.
    cbn [encode]. rewrite !sapp_assoc, encode_string_app.
    change ("{" ++ ?t) with (String "{" t).
    rewrite scan_once_object.
    rewrite skip_ws_indent, (skip_ws_keep dquote), after_ne, after_eq by done.
    rewrite scan_members_encode; [|by apply Hdx|done|..].
    + unfold scan_bind. by rewrite dict_of_pairs_distinct.
    + apply Forall_forall. intros kv Hkv.
      rewrite Forall_forall in Hdxs. apply Hdxs; [done|].
      rewrite forallb_forall in Hxs. apply Hxs. by apply list_elem_of_In.
    + done.
    + change (size (JObject ((k, x) :: kvs))) with (S (members_size ((k, x) :: kvs))) in Hfuel.
      lia.
    + by apply height_object.
Qed.

End Values.

Section Lengths.

Implicit Types (v x : json) (xs : list json) (kvs : list (string * json)) (k : string)
  (level fuel : nat) (rest t : string) (c : ascii).

Lemma length_newline_indent level : (1 ≤ String.length (newline_indent level))%nat.
Proof. unfold newline_indent. simpl. lia. Qed.

Lemma length_encode_items (enc : json → string) level xs :
  Forall (fun x => (size x ≤ String.length (enc x))%nat) xs →
  (items_size xs ≤ String.length (encode_items enc level xs))%nat.
Proof.
  induction 1 as [|x xs Hx Hxs IH]; cbn [encode_items]; [unfold items_size; simpl; lia|].
  rewrite items_size_cons, !slength_app.
  pose proof (length_newline_indent (S level)). simpl. lia.
Qed.

Lemma length_encode_members (enc : json → string) level kvs :
  Forall (fun kv => (size kv.2 ≤ String.length (enc kv.2))%nat) kvs →
  (members_size kvs ≤ String.length (encode_members enc level kvs))%nat.
Proof.
  induction 1 as [|[k x] kvs Hx Hxs IH]; cbn [encode_members];
    [unfold members_size; simpl; lia|].
  rewrite members_size_cons, !slength_app. simpl in Hx.
  pose proof (length_newline_indent (S level)). simpl. lia.
Qed.

(** The size of a plain document is at most the length of its encoding:
    the fuel [loads] gives is enough to decode what [dumps] wrote. *)
Lemma size_le_length v : plain v = true → ∀ level, (size v ≤ String.length (encode level v))%nat.
Proof.
  induction v as [|b|lit|s|l IH|kvs IH] using json_induction; intros Hplain level.
  - simpl. lia.
  - destruct b; simpl; lia.
  - done.
  - simpl. lia.
  - destruct l as [|x xs]; [simpl; lia|].
    cbn [plain forallb] in Hplain. apply andb_prop in Hplain as [Hx Hxs].
    inversion IH as [|? ? Hdx Hdxs]; subst.
    change (size (JArray (x :: xs))) with (S (items_size (x :: xs))).
    rewrite items_size_cons. cbn [encode]. rewrite !slength_app.
    pose proof (length_newline_indent (S level)).
    pose proof (Hdx Hx (S level)).
    assert (items_size xs ≤ String.length (encode_items (encode (S level)) level xs))%nat.
    { apply length_encode_items, Forall_forall. intros y Hy.
      rewrite Forall_forall in Hdxs. apply Hdxs; [done|].
      rewrite forallb_forall in Hxs. apply Hxs. by apply list_elem_of_In. }
    simpl. lia.
  - destruct kvs as [|[k x] kvs]; [simpl; lia|].
    cbn [plain] in Hplain. apply andb_prop in Hplain as [_ Hplain].
    cbn [forallb] in Hplain. apply andb_prop in Hplain as [Hx Hxs]. simpl in Hx.
    inversion IH as [|? ? Hdx Hdxs]; subst. simpl in Hdx.
    change (size (JObject ((k, x) :: kvs))) with (S (members_size ((k, x) :: kvs))).
    rewrite members_size_cons. cbn [encode]. rewrite !slength_app.
    pose proof (length_newline_indent (S level)).
    pose proof (Hdx Hx (S level)).
    assert (members_size kvs ≤ String.length (encode_members (encode (S level)) level kvs))%nat.
    { apply length_encode_members, Forall_forall. intros kv Hkv.
      rewrite Forall_forall in Hdxs. apply Hdxs; [done|].
      rewrite forallb_forall in Hxs. apply Hxs. by apply list_elem_of_In. }
    simpl. lia.
Qed.

(** [loads] reads back what [dumps] wrote, where the interpreter allows
    the nesting of the document. *)
Lemma loads_dumps v depth :
  plain v = true → (height v ≤ depth)%nat → loads depth (dumps v) = Ok v EmptyString.
Proof.
  intros Hplain Hheight. unfold loads, dumps.
  rewrite <- (sapp_nil_r (encode 0 v)) at 2.
  rewrite skip_ws_encode by done.
  rewrite encode_decodes; [done|done| |done].
  pose proof (size_le_length v Hplain 0). lia.
Qed.

End Lengths.

Section Newlines.

Implicit Types (v x : json) (xs : list json) (kvs : list (string * json)) (k s t : string)
  (level : nat).

Lemma no_cr_app s t : no_cr (s ++ t) = no_cr s && no_cr t.
Proof. apply all_chars_app. Qed.

Lemma no_cr_spaces n : no_cr (Text.spaces n) = true.
Proof. induction n as [|n IH]; [done|]. exact IH. Qed.

Lemma no_cr_newline_indent level : no_cr (newline_indent level) = true.
Proof. unfold newline_indent. apply (no_cr_spaces (2 * level)). Qed.

Lemma no_cr_encode_chars s : no_cr (encode_chars s) = true.
Proof.
  induction s as [|c s IH]; [done|].
  cbn [encode_chars]. by rewrite no_cr_app, no_cr_encode_char, IH.
Qed.

Lemma no_cr_encode_string s : no_cr (encode_string s) = true.
Proof.
  unfold encode_string.
  change (no_cr (encode_chars s ++ String dquote EmptyString) = true).
  by rewrite no_cr_app, no_cr_encode_chars.
Qed.

Lemma no_cr_encode_items (enc : json → string) level xs :
  Forall (fun x => no_cr (enc x) = true) xs →
  no_cr (encode_items enc level xs) = true.
Proof.
  induction 1 as [|x xs Hx Hxs IH]; cbn [encode_items].
  - by rewrite no_cr_app, no_cr_newline_indent.
  - by rewrite !no_cr_app, no_cr_newline_indent, Hx, IH.
Qed.

Lemma no_cr_encode_members (enc : json → string) level kvs :
  Forall (fun kv => no_cr (enc kv.2) = true) kvs →
  no_cr (encode_members enc level kvs) = true.
Proof.
  induction 1 as [|[k x] kvs Hx Hxs IH]; cbn [encode_members].
  - by rewrite no_cr_app, no_cr_newline_indent.
  - simpl in Hx. by rewrite !no_cr_app, no_cr_newline_indent, no_cr_encode_string, Hx, IH.
Qed.

(** [dumps] writes no carriage return: a string holds it escaped. *)
Lemma no_cr_encode v : plain v = true → ∀ level, no_cr (encode level v) = true.
Proof.
  induction v as [|b|lit|s|l IH|kvs IH] using json_induction; intros Hplain level.
  - done.
  - by destruct b.
  - done.
  - apply no_cr_encode_string.
  - destruct l as [|x xs]; [done|].
    cbn [plain forallb] in Hplain. apply andb_prop in Hplain as [Hx Hxs].
    inversion IH as [|? ? Hdx Hdxs]; subst.
    cbn [encode]. rewrite !no_cr_app, no_cr_newline_indent, Hdx by done.
    rewrite no_cr_encode_items; [done|].
    apply Forall_forall. intros y Hy.
    rewrite Forall_forall in Hdxs. apply Hdxs; [done|].
    rewrite forallb_forall in Hxs. apply Hxs. by apply list_elem_of_In.
  - destruct kvs as [|[k x] kvs]; [done|].
    cbn [plain] in Hplain. apply andb_prop in Hplain as [_ Hplain].
    cbn [forallb] in Hplain. apply andb_prop in Hplain as [Hx Hxs]. simpl in Hx.
    inversion IH as [|? ? Hdx Hdxs]; subst. simpl in Hdx.
    cbn [encode].
    rewrite !no_cr_app, no_cr_newline_indent, no_cr_encode_string, Hdx by done.
    rewrite no_cr_encode_members; [done|].
    apply Forall_forall. intros kv Hkv.
    rewrite Forall_forall in Hdxs. apply Hdxs; [done|].
    rewrite forallb_forall in Hxs. apply Hxs. by apply list_elem_of_In.
Qed.

Lemma universal_newlines_no_cr s : no_cr s = true → universal_newlines s = s.
Proof.
  induction s as [|c s IH]; [done|].
  unfold no_cr. cbn [Text.all_chars universal_newlines].
  intros [Hc Hs]%andb_prop. apply negb_true_iff in Hc. rewrite Hc.
  by rewrite IH.
Qed.

End Newlines.

Section StateDocument.

Lemma plain_state_json (st : State) : plain (state_json st) = true.
Proof.
  unfold state_json. cbn [plain forallb fmap list_fmap fst snd].
  assert (forallb plain (map note_json (notes st)) = true) as ->.
  { induction (notes st) as [|n ns IH]; [done|]. simpl. exact IH. }
  assert (forallb plain (map todo_json (todos st)) = true) as ->.
  { induction (todos st) as [|t ts IH]; [done|]. simpl. exact IH. }
  reflexivity.
Qed.

(** The document of a state nests three deep: the state, a list, an
    entry of the list. *)
Lemma height_state_json (st : State) : (height (state_json st) ≤ 3)%nat.
Proof.
  assert (∀ (A : Type) (f : A → json) (l : list A),
            (∀ a, height (f a) ≤ 1)%nat → (height (JArray (map f l)) ≤ 2)%nat) as Hlist.
  { intros A f l Hf. change (S (list_max (map height (map f l))) ≤ 2)%nat.
    apply le_n_S, list_max_le, List.Forall_map, List.Forall_map, Forall_forall.
    intros a _. apply Hf. }
  pose proof (Hlist _ note_json (notes st) (fun _ => le_n 1)) as Hnotes.
  pose proof (Hlist _ todo_json (todos st) (fun _ => le_n 1)) as Htodos.
  unfold state_json.
  change (S (list_max [height (JArray (map note_json (notes st)));
                       height (JArray (map todo_json (todos st))); 0]) ≤ 3)%nat.
  unfold list_max, fold_right. lia.
Qed.

(** What [load_state] reads of a state that [save_state] wrote. *)
Lemma loads_state_json (st : State) :
  loads nesting_limit (dumps (state_json st)) = Ok (state_json st) EmptyString.
Proof.
  apply loads_dumps; [apply plain_state_json|].
  pose proof (height_state_json st).
  unfold nesting_limit, recursion_limit, calls_in_progress. lia.
Qed.

Lemma note_json_inj : Inj (=) (=) note_json.
Proof. intros [w1 t1] [w2 t2]. unfold note_json. simpl. by intros [= -> ->]. Qed.

Lemma todo_json_inj : Inj (=) (=) todo_json.
Proof. intros [x1 d1 c1] [x2 d2 c2]. unfold todo_json. simpl. by intros [= -> -> ->]. Qed.

(** Two states with the same document are the same state. *)
Lemma state_json_inj : Inj (=) (=) state_json.
Proof.
  intros [n1 t1 c1] [n2 t2 c2]. unfold state_json. simpl.
  intros [= Hn Ht ->].
  apply (list_fmap_eq_inj note_json note_json_inj) in Hn.
  apply (list_fmap_eq_inj todo_json todo_json_inj) in Ht.
  by subst.
Qed.

End StateDocument.

Section Fuel.

Implicit Types (s r t p : string) (c : ascii) (v : json) (fuel : nat).

#[local] Abbreviation len := String.length.

Lemma skip_ws_length s : (len (skip_ws s) ≤ len s)%nat.
Proof. induction s as [|c s IH]; simpl; [lia|]. destruct (is_ws c); simpl; lia. Qed.

Lemma after_length c s r : after c s = Some r → len s = S (len r).
Proof.
  destruct s as [|c' s]; simpl; [done|]. destruct (Ascii.eqb c c'); [|done].
  by intros [= ->].
Qed.

Lemma scan_bind_Ok {A B} (x : scan A) (k : A → string → scan B) b r :
  scan_bind x k = Ok b r → ∃ a r', x = Ok a r' ∧ k a r' = Ok b r.
Proof. destruct x as [a r'| |]; simpl; [eauto|done|done]. Qed.

Lemma scanstring_length s : ∀ str r, scanstring s = Ok str r → len r < len s.
Proof.
  remember (len s) as n eqn:Hn. revert s Hn.
  induction n as [n IH] using lt_wf_ind. intros s -> str r.
  destruct s as [|c s]; [done|]. cbn [scanstring].
  destruct (Text.code c =? 34)%N.
  { intros [= _ ->]. simpl. lia. }
  destruct (Text.code c =? 92)%N.
  - destruct s as [|e s]; [done|].
    destruct (Text.code e =? 117)%N.
    + destruct s as [|h1 [|h2 [|h3 [|h4 s]]]]; try done.
      destruct (hex_value h1), (hex_value h2), (hex_value h3), (hex_value h4); try done.
      case_match; [|done].
      intros (str' & r' & Hs & [= _ ->])%scan_bind_Ok.
      apply (IH (len s)) in Hs; simpl; [lia|lia|done].
    + destruct (unescape e); [|done].
      intros (str' & r' & Hs & [= _ ->])%scan_bind_Ok.
      apply (IH (len s)) in Hs; simpl; [lia|lia|done].
  - destruct (Text.code c <? 32)%N; [done|].
    intros (str' & r' & Hs & [= _ ->])%scan_bind_Ok.
    apply (IH (len s)) in Hs; simpl; [lia|lia|done].
Qed.

Lemma strip_prefix_length p : ∀ s r, strip_prefix p s = Some r → len s = len p + len r.
Proof.
  induction p as [|a p IH]; intros [|b s] r; simpl; try done.
  - by intros [= <-].
  - by intros [= <-].
  - destruct (Ascii.eqb a b); [|done]. intros H%IH. lia.
Qed.

Lemma take_digits_length s : (len (take_digits s).2 ≤ len s)%nat.
Proof.
  induction s as [|c s IH]; simpl; [lia|].
  destruct (Text.is_ascii_digit c); [|simpl; lia].
  destruct (take_digits s) as [d r]. simpl in *. lia.
Qed.

Lemma match_number_length s lit r : match_number s = Some (lit, r) → len r < len s.
Proof.
  unfold match_number.
  set (signed := match s with String "-" s' => ("-", s') | _ => (EmptyString, s) end).
  assert (len signed.2 ≤ len s)%nat as Hsign.
  { unfold signed. repeat case_match; simpl; lia. }
  destruct signed as [sign s1]. simpl in Hsign.
  set (int_part := match s1 with
                   | String "0" s' => Some ("0", s')
                   | String c _ => if Text.is_ascii_digit c then Some (take_digits s1) else None
                   | EmptyString => None
                   end).
  assert (∀ i s2, int_part = Some (i, s2) → len s2 < len s1) as Hint.
  { intros i s2. unfold int_part.
    destruct s1 as [|c s1']; [done|].
    assert (∀ x, (if Text.is_ascii_digit c then Some (take_digits (String c s1')) else None)
                 = Some x → len x.2 < len (String c s1')) as Hdigits.
    { intros x. destruct (Text.is_ascii_digit c) eqn:Hc; [|done].
      intros [= <-]. simpl. rewrite Hc.
      pose proof (take_digits_length s1'). destruct (take_digits s1'). simpl in *. lia. }
    repeat case_match; try (intros [= <- <-]; simpl; lia);
      intros Hx; apply Hdigits in Hx; exact Hx. }
  destruct int_part as [[i s2]|]; [|done].
  specialize (Hint i s2 eq_refl).
  set (frac := match s2 with
               | String "." s' =>
                   match take_digits s' with
                   | (EmptyString, _) => (EmptyString, s2)
                   | (d, r) => (String "." d, r)
                   end
               | _ => (EmptyString, s2)
               end).
  assert (len frac.2 ≤ len s2)%nat as Hfrac.
  { unfold frac. destruct s2 as [|c s2']; [simpl; lia|].
    pose proof (take_digits_length s2').
    repeat case_match; simpl in *; subst; simpl in *; lia. }
  destruct frac as [fr s3]. simpl in Hfrac.
  match goal with |- (let '(exp, s4) := ?e in _) = _ → _ => set (expo := e) end.
  assert (len expo.2 ≤ len s3)%nat as Hexp.
  { unfold expo. destruct s3 as [|e s3']; [simpl; lia|].
    destruct (_ || _); [|simpl; lia].
    set (sg := match s3' with
               | String "+" t => ("+", t)
               | String "-" t => ("-", t)
               | _ => (EmptyString, s3')
               end).
    assert (len sg.2 ≤ len s3')%nat as Hsg by (unfold sg; repeat case_match; simpl; lia).
    destruct sg as [sg' s5]. simpl in Hsg.
    pose proof (take_digits_length s5).
    repeat case_match; simpl in *; subst; simpl in *; lia. }
  destruct expo as [ex s4]. simpl in Hexp.
  intros [= _ <-]. lia.
Qed.

Lemma scan_atom_length s v r : scan_atom s = Ok v r → len r < len s.
Proof.
  unfold scan_atom.
  repeat lazymatch goal with
  | |- match strip_prefix ?p s with _ => _ end = _ → _ =>
      let H := fresh "H" in
      destruct (strip_prefix p s) eqn:H;
      [intros [= _ <-]; apply strip_prefix_length in H; simpl in H; lia|]
  | |- match match_number s with _ => _ end = _ → _ =>
      let H := fresh "H" in
      destruct (match_number s) as [[lit ?]|] eqn:H;
      [destruct (int_refuses lit); [done|];
       intros [= _ <-]; apply match_number_length in H; lia|]
  end.
  done.
Qed.

Lemma scan_once_S depth fuel s :
  scan_once depth (S fuel) s =
  match after dquote s, after "{" s, after "[" s with
  | Some s', _, _ => scan_bind (scanstring s') (fun str rest => Ok (JString str) rest)
  | None, Some s', _ =>
      match depth with
      | O => Err
      | S depth' =>
          let s'' := skip_ws s' in
          match after "}" s'', after dquote s'' with
          | Some rest, _ => Ok (JObject []) rest
          | None, Some s3 =>
              scan_bind (scan_members depth' fuel s3)
                (fun pairs rest => Ok (JObject (dict_of_pairs pairs)) rest)
          | None, None => Err
          end
      end
  | None, None, Some s' =>
      match depth with
      | O => Err
      | S depth' =>
          let s'' := skip_ws s' in
          match after "]" s'' with
          | Some rest => Ok (JArray []) rest
          | None =>
              scan_bind (scan_items depth' fuel s'') (fun items rest => Ok (JArray items) rest)
          end
      end
  | None, None, None => scan_atom s
  end.
Proof. reflexivity. Qed.

Lemma scanners_enough fuel : ∀ depth,
  enough (scan_once depth) fuel ∧ enough (scan_items depth) fuel
  ∧ enough (scan_members depth) fuel.
Proof.
  induction fuel as [|fuel IH]; [by repeat split|].
  intros depth. destruct (IH depth) as (IHo & IHi & IHm).
  split_and!; intros s a r.
  - rewrite scan_once_S.
    destruct (after dquote s) as [s'|] eqn:Hq.
    { intros (str & r' & Hs & [= <- <-])%scan_bind_Ok.
      pose proof (after_length _ _ _ Hq). pose proof (scanstring_length _ _ _ Hs).
      split; [lia|]. intros [|fuel'] Hf; [lia|]. by rewrite scan_once_S, Hq, Hs. }
    destruct (after "{" s) as [s'|] eqn:Ho.
    { destruct depth as [|depth']; [done|]. destruct (IH depth') as (_ & _ & IHm').
      cbv zeta. pose proof (after_length _ _ _ Ho). pose proof (skip_ws_length s').
      destruct (after "}" (skip_ws s')) as [rest|] eqn:Hc.
      { intros [= <- <-]. pose proof (after_length _ _ _ Hc).
        split; [lia|]. intros [|fuel'] Hf; [lia|].
        rewrite scan_once_S, Hq, Ho. cbv zeta. by rewrite Hc. }
      destruct (after dquote (skip_ws s')) as [s3|] eqn:Hk; [|done].
      intros (pairs & r' & Hm & [= <- <-])%scan_bind_Ok.
      pose proof (after_length _ _ _ Hk).
      destruct (IHm' _ _ _ Hm) as [Hl Hen]. split; [lia|].
      intros [|fuel'] Hf; [lia|].
      rewrite scan_once_S, Hq, Ho. cbv zeta. rewrite Hc, Hk, Hen; [done|lia]. }
    destruct (after "[" s) as [s'|] eqn:Ha; [|].
    { destruct depth as [|depth']; [done|]. destruct (IH depth') as (_ & IHi' & _).
      cbv zeta. pose proof (after_length _ _ _ Ha). pose proof (skip_ws_length s').
      destruct (after "]" (skip_ws s')) as [rest|] eqn:Hc.
      { intros [= <- <-]. pose proof (after_length _ _ _ Hc).
        split; [lia|]. intros [|fuel'] Hf; [lia|].
        rewrite scan_once_S, Hq, Ho, Ha. cbv zeta. by rewrite Hc. }
      intros (items & r' & Hi & [= <- <-])%scan_bind_Ok.
      destruct (IHi' _ _ _ Hi) as [Hl Hen]. split; [lia|].
      intros [|fuel'] Hf; [lia|].
      rewrite scan_once_S, Hq, Ho, Ha. cbv zeta. rewrite Hc, Hen; [done|lia]. }
    intros Hatom. pose proof (scan_atom_length _ _ _ Hatom).
    split; [done|]. intros [|fuel'] Hf; [lia|].
    by rewrite scan_once_S, Hq, Ho, Ha.
  - rewrite scan_items_S.
    intros (v & r1 & Hv & Hrest)%scan_bind_Ok. cbv zeta in Hrest.
    destruct (IHo _ _ _ Hv) as [Hl1 Hen1]. pose proof (skip_ws_length r1).
    destruct (after "]" (skip_ws r1)) as [r'|] eqn:Hc.
    { injection Hrest as <- <-. pose proof (after_length _ _ _ Hc).
      split; [lia|]. intros [|fuel'] Hf; [lia|].
      rewrite scan_items_S, Hen1 by lia. unfold scan_bind. cbv zeta. by rewrite Hc. }
    destruct (after "," (skip_ws r1)) as [r'|] eqn:Hcomma; [|done].
    apply scan_bind_Ok in Hrest as (vs & r2 & Hvs & [= <- <-]).
    pose proof (after_length _ _ _ Hcomma). pose proof (skip_ws_length r').
    destruct (IHi _ _ _ Hvs) as [Hl2 Hen2].
    split; [lia|]. intros [|fuel'] Hf; [lia|].
    rewrite scan_items_S, Hen1 by lia. unfold scan_bind at 1. cbv zeta.
    rewrite Hc, Hcomma, Hen2; [done|lia].
  - rewrite scan_members_S.
    intros (key & r0 & Hkey & Hrest)%scan_bind_Ok.
    pose proof (scanstring_length _ _ _ Hkey). pose proof (skip_ws_length r0).
    destruct (after ":" (skip_ws r0)) as [r1|] eqn:Hcolon; [|done].
    pose proof (after_length _ _ _ Hcolon). pose proof (skip_ws_length r1).
    apply scan_bind_Ok in Hrest as (v & r2 & Hv & Hrest). cbv zeta in Hrest.
    destruct (IHo _ _ _ Hv) as [Hl1 Hen1]. pose proof (skip_ws_length r2).
    destruct (after "}" (skip_ws r2)) as [r3|] eqn:Hc.
    { injection Hrest as <- <-. pose proof (after_length _ _ _ Hc).
      split; [lia|]. intros [|fuel'] Hf; [lia|].
      rewrite scan_members_S, Hkey. unfold scan_bind at 1. rewrite Hcolon.
      rewrite Hen1 by lia. unfold scan_bind. cbv zeta. by rewrite Hc. }
    destruct (after "," (skip_ws r2)) as [r3|] eqn:Hcomma; [|done].
    pose proof (after_length _ _ _ Hcomma). pose proof (skip_ws_length r3).
    destruct (after dquote (skip_ws r3)) as [r4|] eqn:Hq; [|done].
    pose proof (after_length _ _ _ Hq).
    apply scan_bind_Ok in Hrest as (kvs & r5 & Hkvs & [= <- <-]).
    destruct (IHm _ _ _ Hkvs) as [Hl2 Hen2].
    split; [lia|]. intros [|fuel'] Hf; [lia|].
    rewrite scan_members_S, Hkey. unfold scan_bind at 1. rewrite Hcolon.
    rewrite Hen1 by lia. unfold scan_bind at 1. cbv zeta.
    rewrite Hc, Hcomma, Hq, Hen2; [done|lia].
Qed.

(** The fuel [loads] gives never makes it reject a text: what any fuel
    decodes, the length of the text decodes. *)
Lemma loads_fuel_enough depth fuel s v r :
  scan_once depth fuel (skip_ws s) = Ok v r →
  scan_once depth (S (len s)) (skip_ws s) = Ok v r.
Proof.
  intros Hs. destruct (scanners_enough fuel depth) as (Ho & _).
  destruct (Ho _ _ _ Hs) as [_ Hen]. apply Hen.
  pose proof (skip_ws_length s). lia.
Qed.

End Fuel.

(** C4.  When the write is not refused, [save_state(state)] raises
    nothing and the [load_state()] that follows returns the document of
    [state]: the same notes, the same todos and the same creation date,
    for every state of the documented shape. *)
Theorem save_load_roundtrip (st : State) (d : Disk) (now : datetime) :
  write_error d = None →
  (save_state st d).2 = None ∧
  load_state (save_state st d).1 now = Loaded (state_json st) ∧
  (∀ st', load_state (save_state st d).1 now = Loaded (state_json st') →
     notes st' = notes st ∧ todos st' = todos st ∧ created st' = created st).
Proof.
  intros Hw.
  assert (load_state (save_state st d).1 now = Loaded (state_json st)) as Hload.
  { unfold save_state, load_state. rewrite Hw. cbn [fst file].
    rewrite universal_newlines_no_cr by apply no_cr_encode, plain_state_json.
    by rewrite loads_state_json. }
  split_and!.
  - unfold save_state. by rewrite Hw.
  - exact Hload.
  - intros st' Hst'. rewrite Hload in Hst'.
    assert (st' = st) as -> by (apply state_json_inj; congruence). done.
Qed.

Lemma save_load_roundtrip_witness :
  let st := {| notes := [{| Note.when := "2026-11-03T09:05:07";
                            Note.text := "say \hi/" ++ nl ++ "twice" |}];
               todos := [{| Todo.text := "fix bug"; Todo.done := true;
                            Todo.created := "2026-11-02T10:00:00" |}];
               created := "2026-11-01T07:59:59.000012" |} in
  load_state (save_state st (disk example_world)).1 example_time = Loaded (state_json st).
Proof.
  intros st.
  destruct (save_load_roundtrip st (disk example_world) example_time) as (_ & H & _).
  - reflexivity.
  - exact H.
Defined.

(** C5.  [load_state()] can fail visibly.  The test [STATE_PATH.exists()]
    stands before the [try]: when the path cannot be examined, the
    OSError that [stat] raised reaches the caller of [load_state], and
    nothing else does.  The fallback covers what the [try] encloses:
    when the file is missing, cannot be read, or holds a text that
    [json.loads] refuses, [load_state()] returns the document of a fresh
    state, with no notes, no todos and the time of the call as creation
    date. *)
Theorem load_state_raises_outside_try (d : Disk) (now : datetime) :
  (∀ msg, file d = Denied msg ↔ load_state d now = LoadRaised msg) ∧
  (file d = Missing ∨ file d = Unreadable ∨
     (∃ text, file d = Content text ∧ loads nesting_limit (universal_newlines text) = Err) →
   load_state d now = Loaded (state_json (default_state now)) ∧
   notes (default_state now) = [] ∧
   todos (default_state now) = [] ∧
   created (default_state now) = isoformat now).
Proof.
  split.
  - intros msg. unfold load_state. split.
    + by intros ->.
    + destruct (file d) as [|msg'| |text]; try done; [by intros [= ->]|].
      by destruct (loads _ _).
  - intros Hfile. split_and!; try reflexivity.
    unfold load_state.
    destruct Hfile as [->|[->|(text & -> & ->)]]; reflexivity.
Qed.

Lemma load_state_raises_outside_try_witness :
  let denied := "[Errno 13] Permission denied: '/home/guest/.va_state.json'" in
  load_state {| file := Denied denied; write_error := Some denied; writes := 0 |} example_time
  = LoadRaised denied
  ∧ load_state {| file := Content "{ notes: [ }"; write_error := None; writes := 0 |}
      example_time
    = Loaded (state_json (default_state example_time)).
Proof.
  intros denied. split.
  - apply (proj1 (load_state_raises_outside_try _ example_time)). reflexivity.
  - refine (proj1 (proj2 (load_state_raises_outside_try _ example_time) _)).
    right. right. eexists. split; [reflexivity|]. vm_compute. reflexivity.
Defined.

(* ===================================================================== *)
(** * Scenarios                                                           *)
(* ===================================================================== *)

(** [note buy milk], then [note list]. *)
Example scenario_note :
  let w := (main_loop registry
              [(Line "note buy milk", example_time); (Line "note list", example_time)]
              example_world).1 in
  notes (STATE w) = [{| Note.when := "2026-11-03T09:05:07"; Note.text := "buy milk" |}] ∧
  last (stdout w) = Some (Print "1. 2026-11-03T09:05:07 — buy milk").
Proof. vm_compute. split; reflexivity. Qed.

(** [todo add fix bug], [todo done 1], then [todo list]: the number is
    right-aligned in two columns. *)
Example scenario_todo :
  let w := (main_loop registry
              [(Line "todo add fix bug", example_time); (Line "todo done 1", example_time);
               (Line "todo list", example_time)]
              example_world).1 in
  (Todo.done <$> todos (STATE w)) = [true] ∧
  last (stdout w) = Some (Print " 1. [x] fix bug") ∧
  writes (disk w) = 2.
Proof. vm_compute. split_and!; reflexivity. Qed.

(** An alias, an unknown word, a quotation left open, and [exit]. *)
Example scenario_loop :
  let r := main_loop registry
             [(Line "  t add 'water plants' ", example_time);
              (Line "frobnicate", example_time);
              (Line "say 'oops", example_time);
              (Line "q", example_time);
              (Line "say never", example_time)]
             example_world in
  r.2 = Exited 0 ∧
  (Todo.text <$> todos (STATE r.1)) = ["water plants"] ∧
  HISTORY r.1 = ["t add 'water plants'"; "frobnicate"; "say 'oops"; "q"] ∧
  List.filter (fun o => match o with Print _ => true | _ => false end) (stdout r.1) =
    [Print "Added."; Print "Unknown command: frobnicate. Try 'help'.";
     Print "Parse error: No closing quotation"; Print "Bye!"].
Proof. vm_compute. split_and!; reflexivity. Qed.

(** A write that is refused: the note is kept in memory, the error is
    reported and the loop goes on. *)
Example scenario_refused_write :
  let w0 := {| STATE := default_state example_time; HISTORY := [];
               disk := {| file := Missing;
                          write_error := Some "[Errno 30] Read-only file system";
                          writes := 0 |};
               stdout := [] |} in
  let r := main_loop registry [(Line "note buy milk", example_time)] w0 in
  r.2 = Running ∧
  (Note.text <$> notes (STATE r.1)) = ["buy milk"] ∧
  file (disk r.1) = Missing ∧
  last (stdout r.1) = Some (Print "Error running 'note': [Errno 30] Read-only file system").
Proof. vm_compute. split_and!; reflexivity. Qed.

(** [shlex.split] on quotations and escapes. *)
Example scenario_split :
  Shlex.split "note 'buy  milk' and\ more" = inr ["note"; "buy  milk"; "and more"] ∧
  Shlex.split "a\" = inl "No escaped character".
Proof. split; reflexivity. Qed.

(** [json.loads] rejects a number with a leading zero, a comma before
    the closing bracket and a text with nothing in it, and leaves aside
    an escape for a character above U+00FF. *)
Example scenario_loads :
  loads 10 "[01]" = Err ∧ loads 10 "[1,]" = Err ∧ loads 10 "  " = Err ∧
  loads 10 " [[], {}, -1.5e3, null] "
    = Ok (JArray [JArray []; JObject []; JNumber "-1.5e3"; JNull]) EmptyString ∧
  loads 10 (String dquote ("\u2014" ++ String dquote EmptyString)) = Beyond.
Proof. vm_compute. split_and!; reflexivity. Qed.

(** An array inside an array where the interpreter allows one call of
    the scanner more, and where it allows two. *)
Example scenario_nesting :
  loads 1 "[[]]" = Err ∧ loads 2 "[[]]" = Ok (JArray [JArray []]) EmptyString ∧
  loads 0 "{}" = Err ∧ loads 0 " 7 " = Ok (JNumber "7") EmptyString.
Proof. vm_compute. split_and!; reflexivity. Qed.

(* ===================================================================== *)
(** * What a command can do to the state and to the file                  *)
(* ===================================================================== *)

Section Effects.

Implicit Types (w : World) (args : list string) (now : datetime) (st : State).

Lemma save_disk w : disk (save w).1 = (save_state (STATE w) (disk w)).1.
Proof. unfold save. by destruct (save_state (STATE w) (disk w)). Qed.

(** A handler that saves: the state is [st] from then on and the disk is
    the one the save leaves, whatever is printed afterwards. *)
Lemma saved_effect st w (k : World → World * Outcome) :
  (∀ w1, STATE (k w1).1 = STATE w1 ∧ HISTORY (k w1).1 = HISTORY w1
         ∧ disk (k w1).1 = disk w1) →
  let w' := (match save (set_STATE st w) with
             | (w1, Some e) => (w1, Raised e)
             | (w1, None) => k w1
             end).1 in
  STATE w' = st ∧ HISTORY w' = HISTORY w ∧ disk w' = (save_state st (disk w)).1.
Proof.
  intros Hk.
  pose proof (save_STATE (set_STATE st w)) as Hs.
  pose proof (save_HISTORY (set_STATE st w)) as Hh.
  pose proof (save_disk (set_STATE st w)) as Hd.
  destruct (save (set_STATE st w)) as [w1 [e|]]; simpl in *.
  - by rewrite Hs, Hh, Hd.
  - destruct (Hk w1) as (-> & -> & ->). by rewrite Hs, Hh, Hd.
Qed.

Lemma help_only_output reg args w : only_output w (_help reg args w).1.
Proof.
  unfold _help. destruct args as [|a args].
  - destruct (sorted_names reg) as [|n names]; cbn [fst].
    + apply only_output_out.
    + eapply only_output_trans; [apply (only_output_out (Box "Commands:"))|].
      apply only_output_print_all.
  - destruct (resolve reg a) as [[|c cmd]|]; cbn [fst]; try apply only_output_out.
    destruct (help_of reg (String c cmd)) as [e|h]; cbn [fst].
    + apply only_output_refl.
    + apply only_output_out.
Qed.

Lemma note_effect args now w :
  let w' := (_note args now w).1 in
  HISTORY w' = HISTORY w ∧ effect w w'.
Proof.
  unfold _note. destruct args as [|a args]; [by split; [|left]|].
  destruct (String.eqb a "list").
  - destruct (notes (STATE w)) as [|n ns].
    + by split; [|left].
    + destruct (only_output_print_all (imap note_line (n :: ns)) w) as (? & ? & ?).
      by split; [|left].
  - cbv zeta.
    match goal with |- context [set_STATE ?st w] =>
      destruct (saved_effect st w (fun w1 => (print "Saved note." w1, Returned)))
        as (Hs & Hh & Hd); [done|] end.
    split; [exact Hh|]. right. rewrite Hs. split; [constructor|exact Hd].
Qed.

Lemma todo_effect args now w :
  let w' := (_todo args now w).1 in
  HISTORY w' = HISTORY w ∧ effect w w'.
Proof.
  unfold _todo. destruct args as [|sub rest]; [by split; [|left]|].
  destruct (String.eqb sub "add").
  { destruct (Text.strip (Text.join " " rest)) as [|c text] eqn:Htext;
      [by split; [|left]|].
    cbv zeta.
    match goal with |- context [set_STATE ?st w] =>
      destruct (saved_effect st w (fun w1 => (print "Added." w1, Returned)))
        as (Hs & Hh & Hd); [done|] end.
    split; [exact Hh|]. right. rewrite Hs. split; [by constructor|exact Hd]. }
  destruct (String.eqb sub "list").
  { destruct (todos (STATE w)) as [|t ts].
    - by split; [|left].
    - destruct (only_output_print_all (imap todo_line (t :: ts)) w) as (? & ? & ?).
      by split; [|left]. }
  destruct (String.eqb sub "done"); [|by split; [|left]].
  destruct rest as [|number rest]; [by split; [|left]|].
  destruct (negb (Text.isdigit number)); [by split; [|left]|].
  destruct (Text.int number) as [e|k]; [by split; [|left]|].
  cbv zeta.
  destruct ((k - 1 <? 0)%Z || (Z.of_nat (length (todos (STATE w))) <=? k - 1)%Z) eqn:Hk;
    [by split; [|left]|].
  apply orb_false_elim in Hk as [Hlo Hhi].
  apply Z.ltb_ge in Hlo. apply Z.leb_gt in Hhi.
  match goal with |- context [set_STATE ?st w] =>
    destruct (saved_effect st w (fun w1 => (print "Marked done." w1, Returned)))
      as (Hs & Hh & Hd); [done|] end.
  split; [exact Hh|]. right. rewrite Hs. split; [|exact Hd].
  apply (change_done (STATE w)). lia.
Qed.

(** Whatever the handler and its arguments: the history is left alone,
    and either the state and the disk are as before, or the state has
    undergone one change and was saved. *)
Lemma call_effect reg f args now w :
  let w' := (call reg f args now w).1 in
  HISTORY w' = HISTORY w ∧ effect w w'.
Proof.
  destruct f; cbn [call].
  - destruct (help_only_output reg args w) as (? & ? & ?). by split; [|left].
  - by split; [|left].
  - unfold _say. destruct args; by split; [|left].
  - apply note_effect.
  - apply todo_effect.
  - unfold _history. cbv zeta. cbn [fst].
    destruct (only_output_print_all
                (imap history_line (drop (length (HISTORY w) - 50) (HISTORY w))) w)
      as (? & ? & ?).
    by split; [|left].
  - by split; [|left].
  - by split; [|left].
Qed.

Lemma dispatch_effect reg cmd args now w :
  let w' := (dispatch reg cmd args now w).1 in
  HISTORY w' = HISTORY w ∧ effect w w'.
Proof.
  unfold dispatch.
  destruct (COMMANDS reg !! cmd) as [e|]; [|by split; [|left]].
  pose proof (call_effect reg (fn e) args now w) as Hcall.
  by destruct (call reg (fn e) args now w) as [w1 [|msg|status]].
Qed.

Lemma interpret_effect reg parts now w :
  let w' := (interpret reg parts now w).1 in
  HISTORY w' = HISTORY w ∧ effect w w'.
Proof.
  unfold interpret. destruct parts as [|cmd_token args]; [by split; [|left]|].
  destruct (truthy (resolve reg cmd_token)) as [cmd|]; [apply dispatch_effect|].
  destruct (truthy (guess_intent (cmd_token :: args))) as [guess|];
    [apply dispatch_effect|by split; [|left]].
Qed.

Lemma main_step_effect reg inp now w :
  let w' := (main_step reg inp now w).1 in
  HISTORY w' = (HISTORY w ++ recorded inp)%list ∧ effect w w'.
Proof.
  unfold main_step, recorded. cbv zeta.
  destruct inp as [raw| |]; cbn [fst]; try (rewrite app_nil_r; by split; [|left]).
  destruct (Text.strip raw) as [|c line]; [rewrite app_nil_r; by split; [|left]|].
  destruct (Shlex.split (String c line)) as [e|parts]; [by split; [|left]|].
  apply (interpret_effect reg parts now
           (record_line (String c line) (out (Prompt "va> ") w))).
Qed.

End Effects.

Section Growth.

Implicit Types (w : World) (st : State) (t : Todo.t).

Lemma kept_refl t : kept t t.
Proof. by repeat split. Qed.

Lemma kept_trans t1 t2 t3 : kept t1 t2 → kept t2 t3 → kept t1 t3.
Proof. intros (? & ? & ?) (? & ? & ?). repeat split; try congruence. auto. Qed.

Lemma kept_mark_done t : kept t (mark_done t).
Proof. by repeat split. Qed.

Lemma grows_refl st : grows st st.
Proof. split_and!; [done| |done]. intros i t Ht. exists t. split; [done|apply kept_refl]. Qed.

Lemma grows_trans st1 st2 st3 : grows st1 st2 → grows st2 st3 → grows st1 st3.
Proof.
  intros (Hn1 & Ht1 & Hc1) (Hn2 & Ht2 & Hc2). split_and!.
  - intros i n Hi. by apply Hn2, Hn1.
  - intros i t Hi. destruct (Ht1 i t Hi) as (t' & Hi' & Hk).
    destruct (Ht2 i t' Hi') as (t'' & Hi'' & Hk'). exists t''.
    split; [done|]. by eapply kept_trans.
  - congruence.
Qed.

Lemma change_grows st st' : change st st' → grows st st'.
Proof.
  intros [n|t Ht|idx Hidx]; split_and!; simpl; try done.
  - intros i n' Hi. by apply lookup_app_l_Some.
  - intros i t Hi. exists t. split; [done|apply kept_refl].
  - intros i t' Hi. exists t'. split; [by apply lookup_app_l_Some|apply kept_refl].
  - intros i t Hi. rewrite list_lookup_alter. case_decide as Heq.
    + subst i. rewrite Hi. exists (mark_done t). split; [done|apply kept_mark_done].
    + exists t. split; [done|apply kept_refl].
Qed.

Lemma effect_grows w w' : effect w w' → grows (STATE w) (STATE w').
Proof.
  intros [[-> _]|[Hch _]]; [apply grows_refl|by apply change_grows].
Qed.

End Growth.

(** X1.  Whatever the lines typed, the loop only adds to the state: every
    note stays at its position unchanged, every todo stays at its
    position with its text and creation date, a todo that is done stays
    done, and the creation date of the state is kept. *)
Theorem loop_only_grows (reg : Registry) (inputs : list (Input * datetime)) (w : World) :
  grows (STATE w) (STATE (main_loop reg inputs w).1).
Proof.
  revert w. induction inputs as [|[inp now] inputs IH]; intros w; [apply grows_refl|].
  cbn [main_loop].
  destruct (main_step_effect reg inp now w) as [_ Heff].
  destruct (main_step reg inp now w) as [w' [| |]]; cbn [fst] in *.
  - eapply grows_trans; [by apply effect_grows|apply IH].
  - by apply effect_grows.
  - by apply effect_grows.
Qed.

Section WriteThrough.

Implicit Types (w : World) (st : State) (d : Disk).

Lemma save_state_file st d :
  write_error d = None →
  file (save_state st d).1 = Content (dumps (state_json st)) ∧
  write_error (save_state st d).1 = None ∧
  writes (save_state st d).1 = S (writes d).
Proof. intros Hw. unfold save_state. by rewrite Hw. Qed.

Lemma load_in_sync w now : in_sync w → load_state (disk w) now = Loaded (state_json (STATE w)).
Proof.
  unfold in_sync, load_state. intros ->.
  rewrite universal_newlines_no_cr by apply no_cr_encode, plain_state_json.
  by rewrite loads_state_json.
Qed.

Lemma effect_sync w w' :
  effect w w' → write_error (disk w) = None →
  write_error (disk w') = None ∧
  ((STATE w' = STATE w ∧ disk w' = disk w) ∨
   (in_sync w' ∧ writes (disk w') = S (writes (disk w)))).
Proof.
  intros [[Hs Hd]|[_ Hd]] Hw.
  - rewrite Hd. split; [done|by left].
  - destruct (save_state_file (STATE w') (disk w) Hw) as (Hf & Hw' & Hn).
    unfold in_sync. rewrite Hd. split; [done|by right].
Qed.

End WriteThrough.

(** X2.  With a disk that accepts writes, a turn of the loop either
    leaves the state and the disk as they were, or makes one change to
    the state and writes the new state at once: the file then holds the
    document of the state in memory, one write was made, and
    [load_state] would return that state. *)
Theorem turn_saves_what_it_changes (reg : Registry) (inp : Input) (now : datetime)
    (w : World) :
  write_error (disk w) = None →
  let w' := (main_step reg inp now w).1 in
  (STATE w' = STATE w ∧ disk w' = disk w) ∨
  (change (STATE w) (STATE w') ∧
   file (disk w') = Content (dumps (state_json (STATE w'))) ∧
   writes (disk w') = S (writes (disk w)) ∧
   ∀ later, load_state (disk w') later = Loaded (state_json (STATE w'))).
Proof.
  intros Hw w'. destruct (main_step_effect reg inp now w) as [_ [Hsame|[Hch Hd]]].
  - by left.
  - right. fold w' in Hch, Hd.
    destruct (save_state_file (STATE w') (disk w) Hw) as (Hf & _ & Hn).
    rewrite <- Hd in Hf, Hn. split_and!; try done.
    intros later. by apply load_in_sync.
Qed.

Lemma turn_saves_what_it_changes_witness :
  let w' := (main_step registry (Line "todo add fix bug") example_time example_world).1 in
  file (disk w') = Content (dumps (state_json (STATE w'))).
Proof.
  intros w'.
  destruct (turn_saves_what_it_changes registry (Line "todo add fix bug")
              example_time example_world eq_refl) as [[Hsame _]|(_ & Hf & _)].
  - vm_compute in Hsame. discriminate.
  - exact Hf.
Defined.

(** X3.  With a disk that accepts writes, after any run of the loop the
    disk still accepts writes and either the state and the disk are as
    at the start or the file holds the state in memory; so a file in
    step with the state at the start is in step at the end, and
    [load_state] returns the state the run ended with. *)
Theorem loop_keeps_file_in_sync (reg : Registry) (inputs : list (Input * datetime))
    (w : World) :
  write_error (disk w) = None →
  let w' := (main_loop reg inputs w).1 in
  write_error (disk w') = None ∧
  ((STATE w' = STATE w ∧ disk w' = disk w) ∨ in_sync w') ∧
  (in_sync w → in_sync w' ∧ ∀ now, load_state (disk w') now = Loaded (state_json (STATE w'))).
Proof.
  intros Hw w'.
  assert (write_error (disk w') = None ∧
          ((STATE w' = STATE w ∧ disk w' = disk w) ∨ in_sync w')) as [Hw' Hend].
  { unfold w'. clear w'. revert w Hw.
    induction inputs as [|[inp now] inputs IH]; intros w Hw; [by split; [|left]|].
    cbn [main_loop].
    destruct (main_step_effect reg inp now w) as [_ Heff].
    apply effect_sync in Heff as [Hw1 Hstep]; [|done].
    destruct (main_step reg inp now w) as [w1 [| |]]; cbn [fst] in *.
    - destruct (IH w1 Hw1) as [Hw2 Hrest]. split; [done|].
      destruct Hrest as [[Hs Hd]|Hsync]; [|by right].
      destruct Hstep as [[Hs1 Hd1]|[Hsync _]].
      + left. split; congruence.
      + right. unfold in_sync in *. by rewrite Hs, Hd.
    - split; [done|]. destruct Hstep as [?|[? _]]; [by left|by right].
    - split; [done|]. destruct Hstep as [?|[? _]]; [by left|by right]. }
  split_and!; [done|done|].
  intros Hsync.
  assert (in_sync w') as Hsync'.
  { destruct Hend as [[Hs Hd]|?]; [|done]. unfold in_sync in *. by rewrite Hs, Hd. }
  split; [done|]. intros now. by apply load_in_sync.
Qed.

Lemma loop_keeps_file_in_sync_witness :
  let w' := (main_loop registry
               [(Line "note buy milk", example_time); (Line "help", example_time);
                (Line "todo add fix bug", example_time); (Line "todo done 1", example_time)]
               example_world).1 in
  in_sync w'.
Proof.
  intros w'.
  destruct (loop_keeps_file_in_sync registry
              [(Line "note buy milk", example_time); (Line "help", example_time);
               (Line "todo add fix bug", example_time); (Line "todo done 1", example_time)]
              example_world eq_refl) as (_ & [[Hsame _]|Hsync] & _).
  - vm_compute in Hsame. discriminate.
  - exact Hsync.
Defined.

(** X4.  A turn of the loop adds to the history the line it read,
    stripped, when that line is not blank, before anything else is done
    with it, and never touches the history otherwise: a blank line, the
    end of the input and an interrupt add nothing, and no handler alters
    the history. *)
Theorem history_records_lines (reg : Registry) (inp : Input) (now : datetime) (w : World) :
  HISTORY (main_step reg inp now w).1 = (HISTORY w ++ recorded inp)%list ∧
  (∀ raw, inp = Line raw → Text.strip raw = EmptyString →
     main_step reg inp now w = (out (Prompt "va> ") w, Running)).
Proof.
  split; [apply main_step_effect|].
  intros raw -> Hblank. unfold main_step. cbv zeta. by rewrite Hblank.
Qed.

Lemma history_records_lines_witness :
  main_step registry (Line "   ") example_time example_world
  = (out (Prompt "va> ") example_world, Running).
Proof.
  apply (proj2 (history_records_lines registry (Line "   ") example_time example_world) "   ");
    reflexivity.
Defined.

(** X5.  Only the handlers of [note] and [todo] can change the state,
    the history or the disk: every other handler, with any arguments,
    changes nothing but the output. *)
Theorem only_note_and_todo_change (reg : Registry) (f : Handler) (args : list string)
    (now : datetime) (w : World) :
  f ≠ fn_note → f ≠ fn_todo → only_output w (call reg f args now w).1.
Proof.
  intros Hnote Htodo. destruct f; cbn [call]; try done.
  - apply help_only_output.
  - unfold _say. destruct args; apply only_output_out.
  - unfold _history. cbv zeta. cbn [fst]. apply only_output_print_all.
Qed.

Lemma only_note_and_todo_change_witness :
  only_output example_world (call registry fn_history ["x"] example_time example_world).1.
Proof. apply only_note_and_todo_change; discriminate. Defined.

(* ===================================================================== *)
(** * Todos: adding, numbering, marking twice                             *)
(* ===================================================================== *)

Section Stripping.

Implicit Types (s : string) (c : ascii).

Lemma rstrip_idem s : Text.rstrip (Text.rstrip s) = Text.rstrip s.
Proof.
  induction s as [|c s IH]; [done|]. cbn [Text.rstrip].
  destruct (Text.rstrip s) as [|a r] eqn:Hr.
  - destruct (Text.isspace c) eqn:Hc; [done|]. cbn [Text.rstrip]. by rewrite Hc.
  - cbn [Text.rstrip]. fold Text.rstrip. cbn [Text.rstrip] in IH. by rewrite IH.
Qed.

Lemma lstrip_keep c s : Text.isspace c = false → Text.lstrip (String c s) = String c s.
Proof. simpl. by intros ->. Qed.

(** Stripping a stripped string changes nothing. *)
Lemma strip_idem s : Text.strip (Text.strip s) = Text.strip s.
Proof.
  destruct (strip_head s) as [Hs|(c & s' & Hs & Hc)]; rewrite Hs; [done|].
  unfold Text.strip at 1. rewrite lstrip_keep by done.
  rewrite <- Hs. unfold Text.strip. apply rstrip_idem.
Qed.

End Stripping.

Section Numerals.

Implicit Types (s t : string) (c : ascii) (u : Decimal.uint) (z k n d : nat) (acc : Z).

Lemma all_digits_uint u :
  Text.all_chars Text.is_ascii_digit (NilEmpty.string_of_uint u) = true.
Proof. induction u; simpl; done. Qed.

Lemma digits_value_uint u : ∀ n,
  Text.digits_value (Z.of_nat n) (NilEmpty.string_of_uint u) = Z.of_nat (Nat.of_uint_acc u n).
Proof.
  induction u as [|u IH|u IH|u IH|u IH|u IH|u IH|u IH|u IH|u IH|u IH]; intros n;
    cbn [NilEmpty.string_of_uint Text.digits_value Nat.of_uint_acc]; [done|..];
    rewrite <- IH; f_equal; rewrite Nat.tail_mul_spec;
    unfold Text.code; simpl N_of_ascii; lia.
Qed.

(** [str(n)] is written by [Nat.to_uint], which gives a numeral in
    normal form: no zero in front, and one digit at least. *)
Lemma str_nat_uint n :
  ∃ u, Text.str_nat n = NilEmpty.string_of_uint u ∧ u ≠ Decimal.Nil ∧
       Nat.of_uint u = n ∧ Decimal.unorm u = u.
Proof.
  exists (Nat.to_uint n). unfold Text.str_nat.
  pose proof (Unsigned.of_to n) as Hof.
  pose proof (Unsigned.to_of (Nat.to_uint n)) as Hnorm. rewrite Hof in Hnorm.
  assert (Nat.to_uint n ≠ Decimal.Nil) as Hnil.
  { intros Hu. rewrite Hu in Hof. simpl in Hof. subst n. discriminate Hu. }
  split_and!; [|done..]. by destruct (Nat.to_uint n).
Qed.

Lemma str_nat_digits n : Text.all_chars Text.is_ascii_digit (Text.str_nat n) = true.
Proof. destruct (str_nat_uint n) as (u & -> & _). apply all_digits_uint. Qed.

Lemma str_nat_not_empty n : Text.str_nat n ≠ EmptyString.
Proof.
  destruct (str_nat_uint n) as (u & -> & Hu & _). by destruct u.
Qed.

Lemma str_nat_value n : Text.digits_value 0 (Text.str_nat n) = Z.of_nat n.
Proof.
  destruct (str_nat_uint n) as (u & -> & _ & Hn & _).
  change 0%Z with (Z.of_nat 0). by rewrite digits_value_uint, <- Hn.
Qed.

Lemma nzhead_head u v : Decimal.nzhead u ≠ Decimal.D0 v.
Proof. induction u; simpl; done. Qed.

(** The first digit of [str(n)] is a zero for [n = 0] only. *)
Lemma str_nat_head n :
  Text.str_nat n = "0" ∨ ∃ c s, Text.str_nat n = String c s ∧ c ≠ "0"%char.
Proof.
  destruct (str_nat_uint n) as (u & -> & Hu & _ & Hnorm).
  destruct u as [|u|u|u|u|u|u|u|u|u|u]; [done| |right; simpl; eexists _, _; by split..].
  left. unfold Decimal.unorm in Hnorm. simpl in Hnorm.
  destruct (Decimal.nzhead u) as [|v|v|v|v|v|v|v|v|v|v] eqn:Hhead;
    try (by injection Hnorm as <-); try done.
  by destruct (nzhead_head u v).
Qed.

Lemma digits_value_app s : ∀ t acc,
  Text.digits_value acc (s ++ t) = Text.digits_value (Text.digits_value acc s) t.
Proof. induction s as [|c s IH]; intros t acc; simpl; [done|]. apply IH. Qed.

Lemma zeros_digits z : Text.all_chars Text.is_ascii_digit (Text.zeros z) = true.
Proof. induction z as [|z IH]; [done|]. exact IH. Qed.

Lemma zeros_value z : Text.digits_value 0 (Text.zeros z) = 0%Z.
Proof. induction z as [|z IH]; [done|]. exact IH. Qed.

(** A numeral is made of digits and is not empty; its value is the
    number, whatever the zeros in front. *)
Lemma numeral_digits z k : Text.all_chars Text.is_ascii_digit (numeral z k) = true.
Proof. unfold numeral. by rewrite all_chars_app, zeros_digits, str_nat_digits. Qed.

Lemma numeral_not_empty z k : numeral z k ≠ EmptyString.
Proof.
  unfold numeral. pose proof (str_nat_not_empty k).
  destruct z; [done|]. simpl. done.
Qed.

Lemma numeral_value z k : Text.digits_value 0 (numeral z k) = Z.of_nat k.
Proof. unfold numeral. by rewrite digits_value_app, zeros_value, str_nat_value. Qed.

Ltac digit_case u D :=
  exists (D u); split;
  [reflexivity | first [intros _; reflexivity | intros H; by destruct H]].

(** A decimal digit: its value, and the numeral that starts with it. *)
Lemma digit_char c :
  Text.is_ascii_digit c = true →
  ∃ v : nat, v < 10 ∧ Z.of_N (Text.code c - 48) = Z.of_nat v ∧ (c = "0"%char ↔ v = 0) ∧
    ∀ u, ∃ u', NilEmpty.string_of_uint u' = String c (NilEmpty.string_of_uint u) ∧
               (v ≠ 0 → Decimal.unorm u' = u').
Proof.
  destruct c as [[] [] [] [] [] [] [] []]; try discriminate; intros _;
    match goal with |- context [Text.code ?c] => exists (N.to_nat (Text.code c - 48)) end;
    (split_and!;
     [vm_compute; lia
     |vm_compute; reflexivity
     |vm_compute; split; intros H; first [discriminate H | reflexivity]
     |intros u;
      first [digit_case u Decimal.D0 | digit_case u Decimal.D1 | digit_case u Decimal.D2
            |digit_case u Decimal.D3 | digit_case u Decimal.D4 | digit_case u Decimal.D5
            |digit_case u Decimal.D6 | digit_case u Decimal.D7 | digit_case u Decimal.D8
            |digit_case u Decimal.D9]]).
Qed.

Lemma digits_uint s :
  Text.all_chars Text.is_ascii_digit s = true → ∃ u, NilEmpty.string_of_uint u = s.
Proof.
  induction s as [|c s IH]; [by exists Decimal.Nil|].
  cbn [Text.all_chars]. intros [Hc Hs]%andb_prop.
  destruct (IH Hs) as [u <-].
  destruct (digit_char c Hc) as (v & _ & _ & _ & Hu). destruct (Hu u) as (u' & Hu' & _).
  by exists u'.
Qed.

(** A string of digits that starts with another digit than zero is what
    [str] writes of its value. *)
Lemma digits_str_nat c s :
  Text.all_chars Text.is_ascii_digit (String c s) = true → c ≠ "0"%char →
  ∃ k, String c s = Text.str_nat k.
Proof.
  cbn [Text.all_chars]. intros [Hc Hs]%andb_prop Hc0.
  destruct (digits_uint s Hs) as [u <-].
  destruct (digit_char c Hc) as (v & _ & _ & Hv & Hu). destruct (Hu u) as (u' & Hu' & Hnorm).
  exists (Nat.of_uint u'). unfold Text.str_nat.
  rewrite Unsigned.to_of, Hnorm by (rewrite <- Hv; done). rewrite <- Hu'.
  destruct u'; [done|reflexivity..].
Qed.

(** Every string of digits is a numeral. *)
Lemma digits_numeral s :
  Text.all_chars Text.is_ascii_digit s = true → s ≠ EmptyString → ∃ z k, s = numeral z k.
Proof.
  induction s as [|c s IH]; [done|]. intros Hall _.
  destruct (decide (c = "0"%char)) as [->|Hc].
  - destruct s as [|c' s]; [by exists 0, 0|].
    destruct IH as (z & k & Hs); [by apply andb_prop in Hall as [_ ?]|done|].
    exists (S z), k. unfold numeral in *. simpl. by rewrite <- Hs.
  - destruct (digits_str_nat c s Hall Hc) as [k Hk]. by exists 0, k.
Qed.

Lemma leading_digits_all s :
  Text.all_chars Text.is_ascii_digit s = true → Text.leading_digits s = s.
Proof.
  induction s as [|c s IH]; [done|]. cbn [Text.all_chars Text.leading_digits].
  intros [-> Hs]%andb_prop. by rewrite IH.
Qed.

(** [int] converts a string of digits, one at least and no more than
    the limit, to its decimal value. *)
Lemma int_digits s :
  Text.all_chars Text.is_ascii_digit s = true → s ≠ EmptyString →
  (String.length s ≤ Text.int_max_str_digits)%nat →
  Text.int s = inr (Text.digits_value 0 s).
Proof.
  intros Hall Hne Hlen. unfold Text.int. cbv zeta.
  rewrite leading_digits_all by done.
  rewrite (proj2 (Nat.ltb_ge _ _)) by done.
  by rewrite String.eqb_refl, (proj2 (String.eqb_neq _ _)) by done.
Qed.

Lemma int_numeral z k :
  (String.length (numeral z k) ≤ Text.int_max_str_digits)%nat →
  Text.int (numeral z k) = inr (Z.of_nat k).
Proof.
  intros Hlen. rewrite int_digits, numeral_value; [done|..|done].
  - apply numeral_digits.
  - apply numeral_not_empty.
Qed.

(** What [int] converts is a numeral of the value it gives. *)
Lemma int_inr_numeral s v :
  Text.int s = inr v →
  ∃ z k, s = numeral z k ∧ v = Z.of_nat k ∧
         (String.length (numeral z k) ≤ Text.int_max_str_digits)%nat.
Proof.
  intros (Hall & Hne & Hlen & ->)%int_inr.
  destruct (digits_numeral s Hall Hne) as (z & k & ->).
  exists z, k. by rewrite numeral_value.
Qed.

(** The two messages of the ValueError that [int] raises. *)
Lemma int_inl s e :
  Text.int s = inl e →
  e = "invalid literal for int() with base 10: " ++ Text.take 200 (Text.repr s) ∨
  e = "Exceeds the limit (4300 digits) for integer string conversion: "
      ++ "value has " ++ Text.str_nat (String.length (Text.leading_digits s))
      ++ " digits; use sys.set_int_max_str_digits() to increase the limit".
Proof.
  unfold Text.int. cbv zeta.
  destruct (_ <? _)%nat; [intros [= <-]; right; reflexivity|].
  destruct (_ && _); [done|]. intros [= <-]. by left.
Qed.

(** The value of digits behind a digit that is not zero. *)
Lemma digits_value_lower s : ∀ acc,
  Text.all_chars Text.is_ascii_digit s = true → (0 ≤ acc)%Z →
  (acc * 10 ^ Z.of_nat (String.length s) ≤ Text.digits_value acc s)%Z.
Proof.
  induction s as [|c s IH]; intros acc Hall Hacc.
  - simpl. lia.
  - cbn [Text.all_chars] in Hall. apply andb_prop in Hall as [Hc Hs].
    destruct (digit_char c Hc) as (v & _ & Hv & _).
    cbn [Text.digits_value String.length]. rewrite Hv.
    specialize (IH (10 * acc + Z.of_nat v)%Z Hs ltac:(lia)).
    rewrite Nat2Z.inj_succ, Z.pow_succ_r by lia.
    assert (0 < 10 ^ Z.of_nat (String.length s))%Z by (apply Z.pow_pos_nonneg; lia).
    nia.
Qed.

(** [str(n)] has no more digits than a bound of [n] has zeros. *)
Lemma str_nat_length n d :
  (Z.of_nat n < 10 ^ Z.of_nat d)%Z → (1 ≤ d)%nat → (String.length (Text.str_nat n) ≤ d)%nat.
Proof.
  intros Hn Hd. pose proof (str_nat_value n) as Hvalue. pose proof (str_nat_digits n) as Hall.
  destruct (str_nat_head n) as [->|(c & s & Hs & Hc)]; [simpl; lia|].
  rewrite Hs in *. cbn [Text.all_chars] in Hall. apply andb_prop in Hall as [Hdc Hds].
  destruct (digit_char c Hdc) as (v & _ & Hv & Hzero & _).
  cbn [Text.digits_value] in Hvalue. rewrite Hv in Hvalue.
  pose proof (digits_value_lower s (10 * 0 + Z.of_nat v)%Z Hds ltac:(lia)) as Hlow.
  assert (v ≠ 0) as Hv0 by (rewrite <- Hzero; done).
  assert (0 < 10 ^ Z.of_nat (String.length s))%Z by (apply Z.pow_pos_nonneg; lia).
  assert (10 ^ Z.of_nat (String.length s) < 10 ^ Z.of_nat d)%Z as Hpow by nia.
  apply Z.pow_lt_mono_r_iff in Hpow; [|lia..]. simpl. lia.
Qed.

(** The index of an item of a list is written in few digits. *)
Lemma str_nat_short n :
  (Z.of_nat n ≤ sys_maxsize)%Z →
  (String.length (Text.str_nat n) ≤ Text.int_max_str_digits)%nat.
Proof.
  intros Hn. transitivity 19; [|unfold Text.int_max_str_digits; lia].
  apply str_nat_length; [|lia].
  assert (sys_maxsize < 10 ^ Z.of_nat 19)%Z by (vm_compute; reflexivity). lia.
Qed.

(** [int(str(n))] is [n]. *)
Lemma int_str_nat n :
  (Z.of_nat n ≤ sys_maxsize)%Z → Text.int (Text.str_nat n) = inr (Z.of_nat n).
Proof. intros Hn. apply (int_numeral 0 n), str_nat_short, Hn. Qed.

End Numerals.

Section TodoFacts.

Implicit Types (w : World) (args rest more : list string) (now : datetime) (st : State).

Lemma todo_add_STATE rest now w c text :
  Text.strip (Text.join " " rest) = String c text →
  STATE (_todo ("add" :: rest) now w).1 =
  {| notes := notes (STATE w);
     todos := todos (STATE w) ++
              [{| Todo.text := String c text; Todo.done := false;
                  Todo.created := isoformat_seconds now |}];
     created := created (STATE w) |}.
Proof.
  intros Htext. unfold _todo.
  change (String.eqb "add" "add") with true. cbv iota. rewrite Htext. cbv zeta.
  match goal with |- context [set_STATE ?st w] =>
    destruct (saved_effect st w (fun w1 => (print "Added." w1, Returned)))
      as (Hs & _); [done|] end.
  exact Hs.
Qed.

Lemma todo_list_stdout rest now w :
  stdout (_todo ("list" :: rest) now w).1 =
  (stdout w ++
   match todos (STATE w) with
   | [] => [Print "(no todos)"]
   | ts => imap (fun i t => Print (todo_line i t)) ts
   end)%list.
Proof.
  unfold _todo.
  change (String.eqb "list" "add") with false.
  change (String.eqb "list" "list") with true. cbv iota.
  destruct (todos (STATE w)) as [|t ts]; [done|].
  cbn [fst]. rewrite stdout_print_all. f_equal.
  generalize (t :: ts). intros l.
  generalize todo_line. induction l as [|x l IH]; intros f; simpl; [done|].
  f_equal. apply IH.
Qed.

(** The state after [todo done number ...]: the todo that [number]
    names is marked when it names one, and nothing changes otherwise. *)
Lemma todo_done_STATE number more now w :
  STATE (_todo ("done" :: number :: more) now w).1 =
  match Text.int number with
  | inr k =>
      if decide (1 ≤ k ≤ Z.of_nat (length (todos (STATE w))))%Z
      then marked (Z.to_nat (k - 1)) (STATE w)
      else STATE w
  | inl _ => STATE w
  end.
Proof.
  destruct (Text.int number) as [e|k] eqn:Hint.
  - unfold _todo.
    change (String.eqb "done" "add") with false.
    change (String.eqb "done" "list") with false.
    change (String.eqb "done" "done") with true. cbv iota.
    destruct (negb (Text.isdigit number)); [done|]. by rewrite Hint.
  - case_decide as Hk.
    + rewrite (todo_done_in_range _ _ _ _ _ Hint Hk).
      match goal with |- context [set_STATE ?st w] =>
        destruct (saved_effect st w (fun w1 => (print "Marked done." w1, Returned)))
          as (Hs & _); [done|] end.
      exact Hs.
    + unfold _todo.
      change (String.eqb "done" "add") with false.
      change (String.eqb "done" "list") with false.
      change (String.eqb "done" "done") with true. cbv iota.
      rewrite (int_isdigit _ _ Hint), Hint. cbn [negb]. cbv zeta.
      assert ((k - 1 <? 0)%Z || (Z.of_nat (length (todos (STATE w))) <=? k - 1)%Z = true)
        as ->; [|done].
      apply orb_true_iff. rewrite Z.ltb_lt, Z.leb_le. lia.
Qed.

Lemma mark_done_idem (t : Todo.t) : mark_done (mark_done t) = mark_done t.
Proof. reflexivity. Qed.

Lemma marked_idem idx st : marked idx (marked idx st) = marked idx st.
Proof.
  unfold marked. simpl. f_equal.
  rewrite list_alter_alter_eq. apply list_alter_ext; [|done].
  intros t _. apply mark_done_idem.
Qed.

End TodoFacts.

Section MarkingDone.

Implicit Types (w : World) (rest more : list string) (now : datetime) (s : string) (v : Z).

(** [todo done] refuses whatever [int] does not convert to a number of
    the list. *)
Lemma todo_done_refused rest now w :
  (∀ s more v, rest = s :: more → Text.int s = inr v →
     ¬ (1 ≤ v ≤ Z.of_nat (length (todos (STATE w))))%Z) →
  ∃ msg, msg ∈ refusals rest ∧
         todo_done rest now w = (print msg w, Running).
Proof.
  intros Hbad. unfold todo_done. rewrite dispatch_todo. unfold _todo.
  change (String.eqb "done" "add") with false.
  change (String.eqb "done" "list") with false.
  change (String.eqb "done" "done") with true. cbv iota.
  destruct rest as [|s more].
  { eexists. split; [|reflexivity]. apply list_elem_of_here. }
  destruct (Text.isdigit s) eqn:Hdigit; cbn [negb].
  2:{ eexists. split; [|reflexivity]. apply list_elem_of_here. }
  destruct (Text.int s) as [e|v] eqn:Hint.
  { eexists. split; [|reflexivity].
    destruct (int_inl s e Hint) as [->| ->].
    - apply list_elem_of_further, list_elem_of_further, list_elem_of_here.
    - apply list_elem_of_further, list_elem_of_further, list_elem_of_further,
        list_elem_of_here. }
  specialize (Hbad s more v eq_refl Hint).
  assert ((v - 1 <? 0)%Z || (Z.of_nat (length (todos (STATE w))) <=? v - 1)%Z = true) as ->.
  { apply orb_true_iff. rewrite Z.ltb_lt, Z.leb_le. lia. }
  eexists. split; [|reflexivity].
  apply list_elem_of_further, list_elem_of_here.
Qed.

(** The state after [todo done] with the numeral of a number in range. *)
Lemma todo_done_marked z k more now w :
  (String.length (numeral z k) ≤ Text.int_max_str_digits)%nat →
  (1 ≤ k ≤ length (todos (STATE w)))%nat →
  (todo_done (numeral z k :: more) now w).2 = Running ∧
  STATE (todo_done (numeral z k :: more) now w).1 = marked (k - 1) (STATE w).
Proof.
  intros Hlen Hk. unfold todo_done.
  rewrite dispatch_todo, (todo_done_in_range _ _ (Z.of_nat k)); [|by apply int_numeral|lia].
  replace (Z.to_nat (Z.of_nat k - 1)) with (k - 1) by lia.
  set (w1 := set_STATE _ w). pose proof (save_STATE w1) as Hs.
  destruct (save w1) as [w2 [e|]]; simpl in *; by rewrite Hs.
Qed.

End MarkingDone.

(** C6.  [todo done] never ends the loop.  Given the number [k] in
    decimal digits, as [str] writes it or with zeros in front, in no
    more digits than [int] converts, and [1 <= k <= len(todos)], it
    sets the [done] field of the todo number [k] and changes nothing
    else in the state: the other fields of that todo, the other todos,
    the notes and the creation date are as before.  In every other case
    (no argument, an argument that is no such numeral, a number out of
    range) the state and the file are as before and one line is
    printed, which is one of the four messages of refusal.  The numeral
    that [str] writes of an index is never too long, the list being one
    that Python can hold. *)
Theorem todo_done_marks_exactly (rest : list string) (now : datetime) (w : World) :
  let ts := todos (STATE w) in
  let w' := (todo_done rest now w).1 in
  (todo_done rest now w).2 = Running ∧
  (∀ z k more, rest = numeral z k :: more →
     (String.length (numeral z k) ≤ Text.int_max_str_digits)%nat →
     (1 ≤ k ≤ length ts)%nat →
     (∃ t, ts !! (k - 1) = Some t ∧
           todos (STATE w') !! (k - 1) =
           Some {| Todo.text := Todo.text t; Todo.done := true;
                   Todo.created := Todo.created t |}) ∧
     (∀ i, i ≠ k - 1 → todos (STATE w') !! i = ts !! i) ∧
     length (todos (STATE w')) = length ts ∧
     notes (STATE w') = notes (STATE w) ∧ created (STATE w') = created (STATE w)) ∧
  ((∀ z k more, rest = numeral z k :: more →
      (String.length (numeral z k) ≤ Text.int_max_str_digits)%nat →
      ¬ (1 ≤ k ≤ length ts)%nat) →
     STATE w' = STATE w ∧ disk w' = disk w ∧
     ∃ msg, msg ∈ refusals rest ∧ stdout w' = (stdout w ++ [Print msg])%list) ∧
  ((Z.of_nat (length ts) ≤ sys_maxsize)%Z →
     ∀ k, (1 ≤ k ≤ length ts)%nat →
       (String.length (numeral 0 k) ≤ Text.int_max_str_digits)%nat).
Proof.
  intros ts w'.
  assert ((∃ z k more, rest = numeral z k :: more
                       ∧ (String.length (numeral z k) ≤ Text.int_max_str_digits)%nat
                       ∧ (1 ≤ k ≤ length ts)%nat)
          ∨ (∀ s more v, rest = s :: more → Text.int s = inr v →
               ¬ (1 ≤ v ≤ Z.of_nat (length ts))%Z)) as Hcases.
  { destruct rest as [|s more]; [right; by intros|].
    destruct (Text.int s) as [e|v] eqn:Hint.
    - right. intros ? ? ? [= <- <-]. congruence.
    - destruct (int_inr_numeral s v Hint) as (z & k & -> & -> & Hlen).
      destruct (decide (1 ≤ k ≤ length ts)%nat) as [Hk|Hk].
      + left. by exists z, k, more.
      + right. intros ? ? v' [= <- <-] Hint'. rewrite Hint in Hint'.
        injection Hint' as <-. lia. }
  split_and!.
  - destruct Hcases as [(z & k & more & -> & Hlen & Hk)|Hbad].
    + by destruct (todo_done_marked z k more now w Hlen Hk).
    + by destruct (todo_done_refused rest now w Hbad) as (msg & _ & ->).
  - intros z k more Hrest Hlen Hk. unfold w'. rewrite Hrest.
    destruct (todo_done_marked z k more now w Hlen Hk) as [_ ->]. simpl.
    clear Hcases. subst ts.
    assert (k - 1 < length (todos (STATE w))) as Hidx by lia.
    destruct (lookup_lt_is_Some_2 _ (k - 1) Hidx) as [t Ht].
    split_and!.
    + exists t. split; [done|]. rewrite list_lookup_alter, Ht. by case_decide.
    + intros i Hi. by apply list_lookup_alter_ne.
    + apply length_alter.
    + done.
    + done.
  - intros Hbad. unfold w'.
    destruct (todo_done_refused rest now w) as (msg & Hmsg & ->).
    + intros s more v -> Hint Hv.
      destruct (int_inr_numeral s v Hint) as (z & k & -> & -> & Hlen).
      apply (Hbad z k more eq_refl Hlen). unfold ts. lia.
    + split_and!; [done|done|]. by exists msg.
  - intros Hmax k Hk. unfold numeral. cbn [Text.zeros]. apply str_nat_short.
    unfold ts in *. lia.
Qed.

Lemma todo_done_marks_exactly_witness :
  let todo s d := {| Todo.text := s; Todo.done := d; Todo.created := "2026-11-01T08:00:00" |} in
  let w := {| STATE := {| notes := [];
                          todos := [todo "fix bug" false; todo "write docs" false];
                          created := "2026-11-01T07:59:59" |};
              HISTORY := [];
              disk := {| file := Missing; write_error := None; writes := 0 |};
              stdout := [] |} in
  todos (STATE (todo_done ["2"] example_time w).1)
    = [todo "fix bug" false; todo "write docs" true]
  ∧ todos (STATE (todo_done ["002"; "now"] example_time w).1) !! 1
    = Some (todo "write docs" true)
  ∧ STATE (todo_done ["3"] example_time w).1 = STATE w.
Proof.
  intros todo w. split_and!.
  - destruct (todo_done_marks_exactly ["2"] example_time w) as (_ & Hin & _).
    destruct (Hin 0 2 [] eq_refl) as ((t & Ht & Hdone) & Hothers & Hlen & _);
      [vm_compute; lia|simpl; lia|].
    injection Ht as <-. pose proof (Hothers 0 ltac:(simpl; lia)) as Hfirst.
    destruct (todos (STATE (todo_done ["2"] example_time w).1)) as [|t0 [|t1 [|t2 ts]]];
      try discriminate Hlen.
    by injection Hfirst as ->; injection Hdone as ->.
  - destruct (todo_done_marks_exactly ["002"; "now"] example_time w) as (_ & Hin & _).
    destruct (Hin 2 2 ["now"] eq_refl) as ((t & Ht & Hdone) & _);
      [vm_compute; lia|simpl; lia|].
    injection Ht as <-. exact Hdone.
  - destruct (todo_done_marks_exactly ["3"] example_time w) as (_ & _ & Hout & _).
    destruct Hout as (H & _); [|exact H].
    intros z k more [= Hs <-] _. pose proof (numeral_value z k) as Hvalue.
    rewrite <- Hs in Hvalue. simpl in Hvalue. simpl. lia.
Defined.

(** A numeral of more digits than [int] converts is refused whatever
    its value: 4300 zeros in front of a 1 mark nothing. *)
Example scenario_long_numeral :
  let todo := {| Todo.text := "fix bug"; Todo.done := false;
                 Todo.created := "2026-11-01T08:00:00" |} in
  let w := {| STATE := {| notes := []; todos := [todo]; created := "2026-11-01T07:59:59" |};
              HISTORY := []; disk := disk example_world; stdout := [] |} in
  let r := todo_done [numeral 4300 1] example_time w in
  r.2 = Running ∧ STATE r.1 = STATE w ∧ disk r.1 = disk w ∧
  stdout r.1 =
    [Print ("Error running 'todo': Exceeds the limit (4300 digits) for integer string "
            ++ "conversion: value has 4301 digits; use sys.set_int_max_str_digits() to "
            ++ "increase the limit")].
Proof. vm_compute. split_and!; reflexivity. Qed.

(** X6.  [todo add] with a description that is not blank adds, at the
    end of the list, one todo that is not done, whose text is the words
    of the description joined by a space and stripped, and whose date is
    the time of the call to the second; the text stored is never empty
    and stripping it again changes nothing.  With no description, or a
    blank one, it refuses and leaves the state and the disk alone. *)
Theorem todo_add_appends (rest : list string) (now : datetime) (w : World) :
  let text := Text.strip (Text.join " " rest) in
  (text ≠ EmptyString →
     STATE (_todo ("add" :: rest) now w).1 =
       {| notes := notes (STATE w);
          todos := todos (STATE w) ++
                   [{| Todo.text := text; Todo.done := false;
                       Todo.created := isoformat_seconds now |}];
          created := created (STATE w) |} ∧
     Text.strip text = text) ∧
  (text = EmptyString →
     _todo ("add" :: rest) now w = (print "Provide a task description." w, Returned)).
Proof.
  intros text. split.
  - intros Hne. split; [|apply strip_idem].
    destruct text as [|c text'] eqn:Htext; [done|].
    by apply todo_add_STATE.
  - intros Hblank. unfold _todo.
    change (String.eqb "add" "add") with true. cbv iota. fold text. by rewrite Hblank.
Qed.

Lemma todo_add_appends_witness :
  (Todo.text <$> todos (STATE (_todo ["add"; " fix"; "bug  "] example_time example_world).1))
  = ["fix bug"]
  ∧ _todo ["add"; " "; "  "] example_time example_world
    = (print "Provide a task description." example_world, Returned).
Proof.
  destruct (todo_add_appends [" fix"; "bug  "] example_time example_world) as [Hadd _].
  destruct (todo_add_appends [" "; "  "] example_time example_world) as [_ Hblank].
  split.
  - destruct Hadd as [-> _]; [vm_compute; discriminate|]. vm_compute. reflexivity.
  - apply Hblank. vm_compute. reflexivity.
Defined.

(** X7.  The number [todo list] shows in front of a todo is the number
    [todo done] takes for it: the todo at position [i] of the list is
    printed on the line numbered [i + 1], right-aligned in two columns,
    with its box and its text, and [todo done] given that number as
    [str] writes it marks that todo and no other.  The list is one that
    Python can hold: its length is at most [sys.maxsize]. *)
Theorem todo_number_shown_is_number_taken (w : World) (now : datetime) (i : nat)
    (t : Todo.t) :
  (Z.of_nat (length (todos (STATE w))) ≤ sys_maxsize)%Z →
  todos (STATE w) !! i = Some t →
  stdout (_todo ["list"] now w).1 !! (length (stdout w) + i) =
    Some (Print (Text.rjust 2 (Text.str_nat (i + 1)) ++ ". "
                 ++ (if Todo.done t then "[x]" else "[ ]") ++ " " ++ Todo.text t)) ∧
  Text.int (Text.str_nat (i + 1)) = inr (Z.of_nat (i + 1)) ∧
  todos (STATE (_todo ["done"; Text.str_nat (i + 1)] now w).1) =
    alter mark_done i (todos (STATE w)).
Proof.
  intros Hmax Hi. pose proof (lookup_lt_Some _ _ _ Hi) as Hlen.
  assert (Text.int (Text.str_nat (i + 1)) = inr (Z.of_nat (i + 1))) as Hint
    by (apply int_str_nat; lia).
  split_and!.
  - rewrite todo_list_stdout, lookup_app_r by lia.
    replace (length (stdout w) + i - length (stdout w)) with i by lia.
    destruct (todos (STATE w)) as [|t0 ts] eqn:Hts; [by rewrite lookup_nil in Hi|].
    rewrite list_lookup_imap, Hi. simpl. unfold todo_line.
    by replace (S i) with (i + 1) by lia.
  - exact Hint.
  - rewrite todo_done_STATE, Hint.
    rewrite decide_True by lia.
    by replace (Z.to_nat (Z.of_nat (i + 1) - 1)) with i by lia.
Qed.

Lemma todo_number_shown_is_number_taken_witness :
  let todo s := {| Todo.text := s; Todo.done := false; Todo.created := "2026-11-01T08:00:00" |} in
  let w := {| STATE := {| notes := []; todos := [todo "fix bug"; todo "write docs"];
                          created := "2026-11-01T07:59:59" |};
              HISTORY := []; disk := disk example_world; stdout := [] |} in
  stdout (_todo ["list"] example_time w).1 !! 1 = Some (Print " 2. [ ] write docs").
Proof.
  intros todo w.
  refine (proj1 (todo_number_shown_is_number_taken w example_time 1 (todo "write docs")
                   _ eq_refl)).
  simpl. unfold sys_maxsize. lia.
Defined.

(** X8.  Marking a todo done twice is the same as marking it once:
    [todo done] with the same arguments, run again, leaves the state
    its first run left, whether that run marked a todo or refused. *)
Theorem todo_done_twice (rest : list string) (now1 now2 : datetime) (w : World) :
  let w1 := (_todo ("done" :: rest) now1 w).1 in
  STATE (_todo ("done" :: rest) now2 w1).1 = STATE w1.
Proof.
  intros w1. destruct rest as [|number more].
  - reflexivity.
  - unfold w1. rewrite !todo_done_STATE.
    destruct (Text.int number) as [e|k]; [done|].
    destruct (decide (1 ≤ k ≤ Z.of_nat (length (todos (STATE w))))%Z) as [Hk|Hk].
    + cbn [marked todos]. rewrite length_alter, decide_True by done.
      apply marked_idem.
    + by rewrite decide_False by done.
Qed.

(* ===================================================================== *)
(** * History                                                             *)
(* ===================================================================== *)

(** X9.  [history] prints the last fifty lines of the history, or all of
    them when there are fewer, oldest first, numbered from 1 in two
    columns: with [n] lines in the history it prints [min n 50] lines,
    and the line numbered [j + 1] is the line at position
    [n - min n 50 + j] of the history. *)
Theorem history_shows_last_fifty (args : list string) (w : World) :
  let n := length (HISTORY w) in
  let shown := n `min` 50 in
  let w' := (_history args w).1 in
  length (stdout w') = length (stdout w) + shown ∧
  (∀ j line, j < shown → HISTORY w !! (n - shown + j) = Some line →
     stdout w' !! (length (stdout w) + j) =
     Some (Print (Text.rjust 2 (Text.str_nat (j + 1)) ++ ": " ++ line))).
Proof.
  intros n shown w'.
  assert (stdout w' =
          (stdout w ++ imap (fun i l => Print (history_line i l))
                         (drop (n - 50) (HISTORY w)))%list) as Hout.
  { unfold w', n, _history. cbv zeta. cbn [fst]. rewrite stdout_print_all. f_equal.
    generalize (drop (length (HISTORY w) - 50) (HISTORY w)). intros l.
    generalize history_line. induction l as [|x l IH]; intros f; simpl; [done|].
    f_equal. apply IH. }
  split.
  - rewrite Hout, length_app, length_imap, length_drop. unfold shown, n. lia.
  - intros j line Hj Hline. rewrite Hout, lookup_app_r by lia.
    replace (length (stdout w) + j - length (stdout w)) with j by lia.
    rewrite list_lookup_imap, lookup_drop.
    replace (n - 50 + j) with (n - shown + j) by (unfold shown; lia).
    rewrite Hline. simpl. unfold history_line.
    by replace (S j) with (j + 1) by lia.
Qed.

Lemma history_shows_last_fifty_witness :
  let w := {| STATE := STATE example_world; HISTORY := ["note a"; "todo list"; "history"];
              disk := disk example_world; stdout := [] |} in
  stdout (_history [] w).1 !! 2 = Some (Print " 3: history").
Proof.
  intros w.
  apply (proj2 (history_shows_last_fifty [] w) 2 "history"); [simpl; lia|reflexivity].
Defined.

(* ===================================================================== *)
(** * Registration and resolution                                         *)
(* ===================================================================== *)

Section Registration.

Implicit Types (reg : Registry) (name cmd a : string) (aliases : list string).

Lemma alias_fold_in aliases name : ∀ (al : gmap string string) a,
  a ∈ aliases → foldl (fun al a => <[a := name]> al) al aliases !! a = Some name.
Proof.
  induction aliases as [|b aliases IH]; intros al a Hin; [by apply elem_of_nil in Hin|].
  cbn [foldl]. destruct (decide (a ∈ aliases)) as [Hlater|Hlater]; [by apply IH|].
  apply elem_of_cons in Hin as [->|Hin]; [|done].
  clear IH. revert al. induction aliases as [|c aliases IH]; intros al.
  - apply lookup_insert_eq.
  - cbn [foldl]. apply not_elem_of_cons in Hlater as [Hne Hlater].
    rewrite insert_insert_ne by done. by apply IH.
Qed.

Lemma alias_fold_out aliases name : ∀ (al : gmap string string) a,
  a ∉ aliases → foldl (fun al a => <[a := name]> al) al aliases !! a = al !! a.
Proof.
  induction aliases as [|b aliases IH]; intros al a Hout; [done|].
  apply not_elem_of_cons in Hout as [Hne Hout]. cbn [foldl].
  rewrite IH by done. by rewrite lookup_insert_ne.
Qed.

End Registration.

(** X10.  One registration, on any registry.  The name resolves to
    itself and carries the handler and the stripped help text, replacing
    an earlier command of that name.  Each of the aliases resolves to
    the name, unless the alias is itself the name of a command: a
    command name always resolves to itself, whatever the aliases say.
    Every other token resolves as before. *)
Theorem command_registers (name : string) (aliases : list string) (help : string)
    (func : Handler) (reg : Registry) :
  let reg' := command name aliases help func reg in
  COMMANDS reg' !! name = Some {| fn := func; help := Text.strip help |} ∧
  resolve reg' name = Some name ∧
  (∀ a, a ∈ aliases →
     resolve reg' a = Some (if decide (a = name ∨ is_Some (COMMANDS reg !! a)) then a else name)) ∧
  (∀ token, is_Some (COMMANDS reg' !! token) → resolve reg' token = Some token) ∧
  (∀ token, token ≠ name → token ∉ aliases → resolve reg' token = resolve reg token).
Proof.
  intros reg'.
  assert (COMMANDS reg' !! name = Some {| fn := func; help := Text.strip help |}) as Hname
    by apply lookup_insert_eq.
  assert (∀ token, is_Some (COMMANDS reg' !! token) → resolve reg' token = Some token)
    as Hcmd.
  { intros token [e He]. unfold resolve. by rewrite He. }
  split_and!; [done|by apply Hcmd; eauto|..|done|].
  - intros a Ha. case_decide as Hcase.
    + apply Hcmd. destruct Hcase as [->|Hold]; [by eauto|].
      unfold reg', command. cbn [COMMANDS].
      destruct (decide (name = a)) as [->|Hne]; [rewrite lookup_insert_eq; eauto|].
      by rewrite lookup_insert_ne.
    + unfold resolve, reg', command. cbn [COMMANDS ALIASES].
      rewrite lookup_insert_ne by (intros ->; apply Hcase; by left).
      destruct (COMMANDS reg !! a) as [e|] eqn:Hlook; [exfalso; apply Hcase; eauto|].
      by rewrite alias_fold_in.
  - intros token Hne Hout. unfold resolve, reg', command. cbn [COMMANDS ALIASES].
    rewrite lookup_insert_ne by done. by rewrite alias_fold_out.
Qed.

Lemma command_registers_witness :
  resolve (command "note" ["n"; "todo"] "help" fn_note registry) "n" = Some "note"
  ∧ resolve (command "note" ["n"; "todo"] "help" fn_note registry) "todo" = Some "todo"
  ∧ resolve (command "note" ["n"; "todo"] "help" fn_note registry) "task" = Some "todo".
Proof.
  destruct (command_registers "note" ["n"; "todo"] "help" fn_note registry)
    as (_ & _ & Halias & _ & Hother).
  split_and!.
  - rewrite (Halias "n") by compute_done. rewrite decide_False; [done|].
    intros [Heq|[e He]]; [discriminate|]. vm_compute in He. discriminate.
  - rewrite (Halias "todo") by compute_done. rewrite decide_True; [done|].
    right. vm_compute. eauto.
  - rewrite (Hother "task") by compute_done. vm_compute. reflexivity.
Defined.

(** X11.  Resolution takes one step: on the registry any sequence of
    decorators builds, what a token resolves to resolves to itself, so
    an alias never leads to another alias. *)
Theorem resolve_idempotent (regs : list Registration) (token name : string) :
  let reg := foldl register empty_registry regs in
  resolve reg token = Some name → resolve reg name = Some name.
Proof.
  intros reg Hres.
  assert (aliases_closed reg) as Hreg by apply registrations_closed, empty_closed.
  destruct (resolve_registered reg token name Hreg Hres) as [e He].
  unfold resolve. by rewrite He.
Qed.

Lemma resolve_idempotent_witness : resolve registry "todo" = Some "todo".
Proof. apply (resolve_idempotent registrations "task" "todo"). vm_compute. reflexivity. Defined.

(* ===================================================================== *)
(** * Help                                                                *)
(* ===================================================================== *)

Section HelpFacts.

Lemma registry_closed : aliases_closed registry.
Proof. apply registrations_closed, empty_closed. Qed.

(** No command of the program has an empty name or an empty help text. *)
Lemma registry_entries name e :
  COMMANDS registry !! name = Some e → name ≠ EmptyString ∧ help e ≠ EmptyString.
Proof.
  intros Hlook. apply elem_of_map_to_list in Hlook.
  assert (forallb (fun p : string * CommandEntry =>
                     negb (String.eqb p.1 EmptyString) && negb (String.eqb (help p.2) EmptyString))
            (map_to_list (COMMANDS registry)) = true) as Hall by (vm_compute; reflexivity).
  rewrite forallb_forall in Hall.
  apply list_elem_of_In, Hall, andb_prop in Hlook as [Hn Hh].
  apply negb_true_iff, String.eqb_neq in Hn, Hh. done.
Qed.

Lemma help_resolved a name rest w :
  resolve registry a = Some name →
  ∃ e, COMMANDS registry !! name = Some e ∧
       _help registry (a :: rest) w = (echo_box (name ++ nl ++ nl ++ help e) w, Returned).
Proof.
  intros Hres.
  destruct (resolve_registered registry a name registry_closed Hres) as [e He].
  exists e. split; [done|].
  destruct (registry_entries name e He) as [Hname Hhelp].
  unfold _help. rewrite Hres. destruct name as [|c name]; [done|].
  unfold help_of. rewrite He. by destruct (help e).
Qed.

End HelpFacts.

(** X12.  [help] with an argument resolves it first: for a name or an
    alias of a command it shows, in a box, the name of the command, an
    empty line and its help text, the same through an alias as through
    the name; for any other word it prints that there is no such
    command.  On the program's registry [help] never raises, with or
    without arguments. *)
Theorem help_resolves_its_argument (a : string) (rest : list string) (w : World) :
  (∀ name, resolve registry a = Some name →
     (∃ e, COMMANDS registry !! name = Some e ∧
           _help registry (a :: rest) w = (echo_box (name ++ nl ++ nl ++ help e) w, Returned)) ∧
     _help registry (a :: rest) w = _help registry [name] w) ∧
  (resolve registry a = None →
     _help registry (a :: rest) w = (print ("No such command: " ++ a) w, Returned)) ∧
  (∀ args, (_help registry args w).2 = Returned).
Proof.
  split_and!.
  - intros name Hres. split; [by apply help_resolved|].
    destruct (help_resolved a name rest w Hres) as (e & He & ->).
    assert (resolve registry name = Some name) as Hname.
    { unfold resolve. by rewrite He. }
    destruct (help_resolved name name [] w Hname) as (e' & He' & ->).
    congruence.
  - intros Hres. unfold _help. by rewrite Hres.
  - intros [|b args].
    + unfold _help. destruct (sorted_names registry) eqn:Hnames; [|done].
      vm_compute in Hnames. discriminate.
    + destruct (resolve registry b) as [name|] eqn:Hres.
      * by destruct (help_resolved b name args w Hres) as (e & _ & ->).
      * unfold _help. by rewrite Hres.
Qed.

Lemma help_resolves_its_argument_witness :
  _help registry ["t"; "x"] example_world = _help registry ["todo"] example_world
  ∧ _help registry ["T"] example_world = (print "No such command: T" example_world, Returned).
Proof.
  destruct (help_resolves_its_argument "t" ["x"] example_world) as (Hres & _ & _).
  destruct (help_resolves_its_argument "T" [] example_world) as (_ & Hnone & _).
  split.
  - apply (Hres "todo"). vm_compute. reflexivity.
  - apply Hnone. vm_compute. reflexivity.
Defined.

(* ===================================================================== *)
(** * Intents                                                             *)
(* ===================================================================== *)

Section IntentMore.

Implicit Types (tokens : list string).






Lemma keyword_rule keys cmd x :
  (keys, cmd) ∈ INTENT_MAP → x ∈ keys → x ∈ intent_keywords.
Proof.
  intros Hrule Hx. unfold intent_keywords. apply elem_of_union_list.
  exists keys. split; [|done]. apply list_elem_of_fmap. by exists (keys, cmd).
Qed.

Lemma keyword_rule_inv x :
  x ∈ intent_keywords → ∃ keys cmd, (keys, cmd) ∈ INTENT_MAP ∧ x ∈ keys.
Proof.
  unfold intent_keywords. intros (keys & Hkeys & Hx)%elem_of_union_list.
  apply list_elem_of_fmap in Hkeys as ([keys' cmd] & -> & Hin). eauto.
Qed.

Lemma guess_intent_None tokens :
  guess_intent tokens = None ↔ ∀ t, t ∈ tokens → Text.lower t ∉ intent_keywords.
Proof.
  unfold guess_intent. cbv zeta. rewrite first_match_None. split.
  - intros Hnone t Ht (keys & cmd & Hrule & Hkey)%keyword_rule_inv.
    specialize (Hnone keys cmd Hrule).
    assert (Text.lower t ∈ keys ∩ list_to_set (map Text.lower tokens)) as Hin.
    { apply elem_of_intersection. split; [done|].
      apply elem_of_list_to_set, list_elem_of_fmap. eauto. }
    rewrite Hnone in Hin. by apply not_elem_of_empty in Hin.
  - intros Hnone keys cmd Hrule. apply set_eq. intros x. split.
    + intros [Hx Hw]%elem_of_intersection.
      apply elem_of_list_to_set, list_elem_of_fmap in Hw as (t & -> & Ht).
      exfalso. apply (Hnone t Ht). by eapply keyword_rule.
    + intros Hx. by apply not_elem_of_empty in Hx.
Qed.

End IntentMore.



(** X14.  Every command the intent rules can name is registered, is not
    the exit command and has a name that is not empty: the fallback
    always finds a handler to call and never ends the process. *)
Theorem intents_are_commands (tokens : list string) (guess : string) :
  guess_intent tokens = Some guess →
  guess ≠ EmptyString ∧
  ∃ e, COMMANDS registry !! guess = Some e ∧ fn e ≠ fn_exit.
Proof.
  intros Hguess. apply first_match_range in Hguess.
  cbn [INTENT_MAP fmap list_fmap snd] in Hguess.
  repeat (apply elem_of_cons in Hguess as [->|Hguess];
          [split; [done|]; vm_compute; eexists; split; [reflexivity|discriminate]|]).
  by apply elem_of_nil in Hguess.
Qed.

Lemma intents_are_commands_witness :
  ∃ e, COMMANDS registry !! "time" = Some e ∧ fn e ≠ fn_exit.
Proof.
  apply (intents_are_commands ["what"; "is"; "the"; "CLOCK"] "time"). vm_compute. reflexivity.
Defined.

(** X15.  A line whose first token is no command name and no alias, and
    none of whose tokens, lower-cased, is a keyword of the intent rules,
    is answered with [Unknown command]: nothing is run, one line is
    printed and the loop goes on.  The guess is empty exactly when no
    token is such a keyword. *)
Theorem unknown_command_reported (cmd_token : string) (args : list string)
    (now : datetime) (w : World) :
  (cmd_token ∉ registered_names → cmd_token ∉ registered_aliases.*1 →
   (∀ t, t ∈ cmd_token :: args → Text.lower t ∉ intent_keywords) →
   interpret registry (cmd_token :: args) now w =
     (print ("Unknown command: " ++ cmd_token ++ ". Try 'help'.") w, Running)) ∧
  (guess_intent (cmd_token :: args) = None ↔
   ∀ t, t ∈ cmd_token :: args → Text.lower t ∉ intent_keywords).
Proof.
  split; [|apply guess_intent_None].
  intros Hname Halias Hwords.
  assert (resolve registry cmd_token = None) as Hres.
  { unfold resolve.
    assert (COMMANDS registry !! cmd_token = None) as ->.
    { apply not_elem_of_dom. rewrite registry_names. by rewrite elem_of_list_to_set. }
    rewrite registry_aliases.
    assert (list_to_map (M := gmap string string) registered_aliases !! cmd_token = None)
      as ->; [|done].
    by apply not_elem_of_list_to_map_1. }
  apply guess_intent_None in Hwords.
  unfold interpret. by rewrite Hres, Hwords.
Qed.

Lemma unknown_command_reported_witness :
  interpret registry ["frobnicate"; "now"] example_time example_world =
  (print "Unknown command: frobnicate. Try 'help'." example_world, Running).
Proof.
  apply (proj1 (unknown_command_reported "frobnicate" ["now"] example_time example_world)).
  - compute_done.
  - compute_done.
  - intros t Ht. repeat (apply elem_of_cons in Ht as [->|Ht]; [compute_done|]).
    by apply elem_of_nil in Ht.
Defined.

(* ===================================================================== *)
(** * Leaving, and running on                                             *)
(* ===================================================================== *)

Section Leaving.

Lemma registry_exit : ∃ h, COMMANDS registry !! "exit" = Some {| fn := fn_exit; help := h |}.
Proof. vm_compute. eexists. reflexivity. Qed.

End Leaving.

(** X16.  Leaving saves nothing.  At the end of the input and on an
    interrupt the loop prints an empty line and the farewell and ends
    with status 0; on a line whose first token resolves to the exit
    command, whatever follows it, the farewell is printed and the
    process ends with status 0.  In both cases the state and the disk
    are as they were: no write is made on the way out. *)
Theorem leaving_saves_nothing (now : datetime) (w : World) :
  (∀ reg inp, inp = EndOfInput ∨ inp = Interrupt →
     main_step reg inp now w =
       (print "Bye!" (print EmptyString (out (Prompt "va> ") w)), Exited 0)) ∧
  (∀ cmd_token args, resolve registry cmd_token = Some "exit" →
     interpret registry (cmd_token :: args) now w = (print "Bye!" w, Exited 0)) ∧
  (∀ inp, (main_step registry inp now w).2 ≠ Running →
     STATE (main_step registry inp now w).1 = STATE w ∧
     disk (main_step registry inp now w).1 = disk w).
Proof.
  assert (∀ cmd_token args, resolve registry cmd_token = Some "exit" →
            interpret registry (cmd_token :: args) now w = (print "Bye!" w, Exited 0))
    as Hexit.
  { intros cmd_token args Hres. unfold interpret. rewrite Hres. cbn [truthy].
    unfold dispatch. destruct registry_exit as [h ->]. reflexivity. }
  split_and!; [|exact Hexit|].
  - intros reg inp [->| ->]; reflexivity.
  - intros inp Hstop. destruct inp as [raw| |]; [|done..].
    unfold main_step in *. cbv zeta in *.
    destruct (Text.strip raw) as [|c line]; [done|].
    destruct (Shlex.split (String c line)) as [e|[|cmd_token args]]; [done|done|].
    set (w1 := record_line (String c line) (out (Prompt "va> ") w)) in *.
    destruct (interpret_status cmd_token args now w1) as [Hrun|[_ Hres]]; [done|].
    assert (∀ cmd_token args, resolve registry cmd_token = Some "exit" →
              interpret registry (cmd_token :: args) now w1 = (print "Bye!" w1, Exited 0))
      as Hexit1.
    { intros t a Hr. unfold interpret. rewrite Hr. cbn [truthy].
      unfold dispatch. destruct registry_exit as [h ->]. reflexivity. }
    by rewrite (Hexit1 _ _ Hres).
Qed.

Lemma leaving_saves_nothing_witness :
  main_step registry (Line "quit now") example_time example_world
  = (print "Bye!" (record_line "quit now" (out (Prompt "va> ") example_world)), Exited 0)
  ∧ disk (main_step registry (Line "q") example_time example_world).1 = disk example_world.
Proof.
  split.
  - vm_compute. reflexivity.
  - apply (proj2 (proj2 (leaving_saves_nothing example_time example_world)) (Line "q")).
    vm_compute. discriminate.
Defined.

(** X17.  The note command called by its name or by an alias stores all
    its arguments, joined by a space: stop words are removed only on the
    fallback path, not from the arguments of a command that resolved. *)
Theorem note_command_keeps_every_argument (cmd_token : string) (args : list string)
    (now : datetime) (w : World) :
  resolve registry cmd_token = Some "note" → is_note_add args →
  STATE (interpret registry (cmd_token :: args) now w).1 =
  {| notes := notes (STATE w) ++
              [{| Note.when := isoformat_seconds now; Note.text := Text.join " " args |}];
     todos := todos (STATE w); created := created (STATE w) |}.
Proof.
  intros Hres Hadd. unfold interpret. rewrite Hres. cbn [truthy].
  rewrite dispatch_note_STATE. by apply note_add_STATE.
Qed.

Lemma note_command_keeps_every_argument_witness :
  (Note.text <$> notes (STATE (interpret registry ["n"; "please"; "call"; "the"; "bank"]
                                 example_time example_world).1))
  = ["please call the bank"].
Proof.
  rewrite (note_command_keeps_every_argument "n" ["please"; "call"; "the"; "bank"]
             example_time example_world).
  - reflexivity.
  - vm_compute. reflexivity.
  - simpl. discriminate.
Defined.

(** X19.  The fallback to the todo command adds nothing from free text:
    when the first token resolves to nothing and the guess is the todo
    command, the arguments kept go to [_todo] as they are, so unless the
    first of them is one of its three subcommands the usage is printed
    and the state and the disk are left alone. *)
Theorem todo_fallback_prints_usage (cmd_token : string) (args : list string)
    (now : datetime) (w : World) :
  truthy (resolve registry cmd_token) = None →
  guess_intent (cmd_token :: args) = Some "todo" →
  (∀ a rest, keep_args args = a :: rest → a ≠ "add" ∧ a ≠ "list" ∧ a ≠ "done") →
  interpret registry (cmd_token :: args) now w = (print todo_usage w, Running).
Proof.
  intros Hres Hguess Hsub. unfold interpret.
  rewrite Hres, Hguess. cbn [truthy]. fold (keep_args args).
  change (String.eqb "todo" "note") with false.
  destruct (keep_args args) as [|a rest] eqn:Hkeep.
  - by rewrite dispatch_todo.
  - destruct (Hsub a rest eq_refl) as (Hadd & Hlist & Hdone).
    apply String.eqb_neq in Hadd, Hlist, Hdone.
    rewrite dispatch_todo. unfold _todo. by rewrite Hadd, Hlist, Hdone.
Qed.

Lemma todo_fallback_prints_usage_witness :
  interpret registry ["remind"; "me"; "the"; "dentist"] example_time example_world
  = (print todo_usage example_world, Running).
Proof.
  apply todo_fallback_prints_usage.
  - vm_compute. reflexivity.
  - vm_compute. reflexivity.
  - intros a rest Hkeep. vm_compute in Hkeep. injection Hkeep as <- <-.
    repeat split; discriminate.
Defined.

(* ===================================================================== *)
(** * The state file and the limits of the interpreter                    *)
(* ===================================================================== *)

Section Limits.

Implicit Types (s t rest : string) (c : ascii) (n depth fuel : nat).








End Limits.




(** The arrays may nest as deep as the limit, and no deeper. *)
Example scenario_limits :
  (∃ v, loads nesting_limit (brackets 994 ++ closing 994) = Ok v EmptyString) ∧
  loads nesting_limit (brackets 995 ++ closing 995) = Err ∧
  (∃ v, loads nesting_limit (String "1" (Text.zeros 4299)) = Ok v EmptyString) ∧
  loads nesting_limit (String "1" (Text.zeros 4300)) = Err ∧
  (∃ v, loads nesting_limit (String "1" (Text.zeros 4300) ++ ".5") = Ok v EmptyString).
Proof. vm_compute. split_and!; try reflexivity; eexists; reflexivity. Qed.
